(** * A shallow embedding of the demonstration HTTP server

    The server is an Express application with five routes: the root
    greeting, [/health], [/env] and the two relays [/posts] and
    [/random-fact], next to a console spinner driven by a timer.  Its
    source is the JavaScript carried in [src/Dockerfile] (lines 44-186);
    [src/index.js] is the plain server with the root route only.  The
    handlers are embedded as programs of a small state-and-exception monad
    over the process state (clock, environment, network, output streams) and
    the response object of the request being served. *)

From Stdlib Require Import ZArith Lia SpecFloat Ascii String.
From stdpp Require Import base gmap strings list pretty.

Local Open Scope Z_scope.

(** ** JSON values and responses *)

Set Warnings "-register-all".

(** A JavaScript number is an IEEE double; the handlers never compute with
    the numbers of an upstream body, and [res.json] only tells apart those
    that a JSON text cannot carry. *)
Inductive json : Type :=
  | JNull
  | JBool (b : bool)
  | JNumber (x : spec_float)
  | JString (s : string)
  | JArray (items : list json)
  | JObject (fields : list (string * json)).

(** [res.send(text)] sends a text body, [res.json(value)] a JSON body. *)
Inductive Body : Type :=
  | BodyText (s : string)
  | BodyJson (v : json).

Record Response : Type := mkResponse {
  resp_status : Z;
  resp_body : Body
}.

(** The value of an exception: an [Error] object with its [message]. *)
Record JsError : Type := mkError {
  err_name : string;
  err_message : string
}.

(** ** The upstream, as seen through [fetch] *)

(** [await response.json()] either yields the parsed body or rejects. *)
Inductive BodyOutcome : Type :=
  | JsonParsed (v : json)
  | JsonRejected (e : JsError).

Record FetchResponse : Type := mkFetchResponse {
  status : Z;
  json_result : BodyOutcome;
  (** whether the stack has room for [JSON.stringify] to serialise the
      parsed body when the handler hands it to [res.json]; it has not for
      a body that is nested too deep *)
  stack_room : bool
}.

(** [await fetch(url)] either resolves to a response, whatever its status,
    or rejects on a transport error. *)
Inductive FetchOutcome : Type :=
  | Resolved (r : FetchResponse)
  | Rejected (e : JsError).

(** [response.ok]: the status is in the range 200-299. *)
Definition ok (r : FetchResponse) : bool :=
  (200 <=? status r) && (status r <=? 299).

(** ** Process state *)

Record World : Type := mkWorld {
  (** the successive readings of the system clock, in ms since the epoch *)
  clock : nat -> Z;
  clock_reads : nat;
  (** the locale-dependent rendering behind [toLocaleTimeString] *)
  localeTime : Z -> string;
  (** [process.env] *)
  env : gmap string string;
  (** what the upstream behind each URL does *)
  net : string -> FetchOutcome;
  stdout : list string;
  stderr : list string;
  (** the module-level [let spinnerIndex] *)
  spinnerIndex : nat
}.

(** The response object [res] of one request. *)
Record Res : Type := mkRes {
  statusCode : Z;
  sent : option Response
}.

Definition fresh_res : Res := {| statusCode := 200; sent := None |}.

Record Ctx : Type := mkCtx {
  world : World;
  res : Res
}.

(** ** The monad of handler code *)

Inductive Outcome (A : Type) : Type :=
  | Returned (a : A)
  | Thrown (e : JsError).
Arguments Returned {A} a.
Arguments Thrown {A} e.

Definition M (A : Type) : Type := Ctx -> Outcome A * Ctx.

Definition ret {A} (a : A) : M A := fun c => (Returned a, c).

Definition bind {A B} (m : M A) (k : A -> M B) : M B :=
  fun c =>
    match m c with
    | (Returned a, c') => k a c'
    | (Thrown e, c') => (Thrown e, c')
    end.

Definition throw {A} (e : JsError) : M A := fun c => (Thrown e, c).

(** [try { body } catch (error) { handler }] *)
Definition try_catch {A} (body : M A) (handler : JsError -> M A) : M A :=
  fun c =>
    match body c with
    | (Returned a, c') => (Returned a, c')
    | (Thrown e, c') => handler e c'
    end.

Declare Scope js_scope.
Delimit Scope js_scope with js.
Notation "x <~ m ;; k" := (bind m (fun x => k))
  (at level 20, m at level 99, k at level 200, only parsing) : js_scope.
Notation "m ;;; k" := (bind m (fun _ => k))
  (at level 100, k at level 200, right associativity, only parsing) : js_scope.
Local Open Scope js_scope.

Definition modify_world (f : World -> World) : M unit :=
  fun c => (Returned tt, {| world := f (world c); res := res c |}).

Definition modify_res (f : Res -> Res) : M unit :=
  fun c => (Returned tt, {| world := world c; res := f (res c) |}).

(** ** Platform primitives *)

Definition nl : string := String (ascii_of_nat 10) "".
Definition cr : string := String (ascii_of_nat 13) "".

(** [new Date()]: one more reading of the clock. *)
Definition new_Date : M Z :=
  fun c =>
    let w := world c in
    (Returned (clock w (clock_reads w)),
     {| world := {| clock := clock w; clock_reads := S (clock_reads w);
                    localeTime := localeTime w; env := env w; net := net w;
                    stdout := stdout w; stderr := stderr w;
                    spinnerIndex := spinnerIndex w |};
        res := res c |}).

Definition toLocaleTimeString (t : Z) : M string :=
  fun c => (Returned (localeTime (world c) t), c).

Definition stdout_write (s : string) : M unit :=
  modify_world (fun w =>
    {| clock := clock w; clock_reads := clock_reads w;
       localeTime := localeTime w; env := env w; net := net w;
       stdout := stdout w ++ [s]; stderr := stderr w;
       spinnerIndex := spinnerIndex w |}).

(** [console.error(a, b)] prints its arguments separated by a space. *)
Definition console_error (a b : string) : M unit :=
  modify_world (fun w =>
    {| clock := clock w; clock_reads := clock_reads w;
       localeTime := localeTime w; env := env w; net := net w;
       stdout := stdout w; stderr := stderr w ++ [a +:+ " " +:+ b +:+ nl];
       spinnerIndex := spinnerIndex w |}).

(** [console.log(text)] prints the text and a line feed. *)
Definition console_log (s : string) : M unit := stdout_write (s +:+ nl).

(** [process.env.NAME]: [None] stands for [undefined]. *)
Definition process_env (name : string) : M (option string) :=
  fun c => (Returned (env (world c) !! name), c).

(** [value || fallback] on an optional string: [undefined] and the empty
    string are the falsy values. *)
Definition or_else (value : option string) (fallback : string) : string :=
  match value with
  | Some s => if decide (s = "") then fallback else s
  | None => fallback
  end.

Definition fetch (url : string) : M FetchResponse :=
  fun c =>
    match net (world c) url with
    | Resolved r => (Returned r, c)
    | Rejected e => (Thrown e, c)
    end.

Definition response_json (r : FetchResponse) : M json :=
  match json_result r with
  | JsonParsed v => ret v
  | JsonRejected e => throw e
  end.

(** [res.status(code)] *)
Definition res_status (code : Z) : M unit :=
  modify_res (fun r => {| statusCode := code; sent := sent r |}).

(** Sending a second response on the same [res] throws
    [ERR_HTTP_HEADERS_SENT]. *)
Definition headers_sent : JsError :=
  {| err_name := "Error";
     err_message := "Cannot set headers after they are sent to the client" |}.

Definition res_end (b : Body) : M unit :=
  fun c =>
    match sent (res c) with
    | Some _ => (Thrown headers_sent, c)
    | None =>
        (Returned tt,
         {| world := world c;
            res := {| statusCode := statusCode (res c);
                      sent := Some {| resp_status := statusCode (res c);
                                      resp_body := b |} |} |})
    end.

Definition res_send (s : string) : M unit := res_end (BodyText s).

(** ** [JSON.stringify], as [res.json] calls it

    [res.json(value)] sends the text [JSON.stringify(value)].  A JSON text
    has no notation for infinities, NaN or negative zero: the first two are
    written [null] and the last [0].  [serialised v] is the value that the
    text sent for [v] denotes. *)
Fixpoint serialised (v : json) : json :=
  match v with
  | JNull | JBool _ | JString _ => v
  | JNumber x =>
      match x with
      | S754_infinity _ | S754_nan => JNull
      | S754_zero _ => JNumber (S754_zero false)
      | S754_finite _ _ _ => JNumber x
      end
  | JArray items => JArray (map serialised items)
  | JObject fields => JObject (map (fun kv => (kv.1, serialised kv.2)) fields)
  end.

(** A value with no number that a JSON text cannot carry. *)
Fixpoint plain (v : json) : bool :=
  match v with
  | JNull | JBool _ | JString _ => true
  | JNumber x =>
      match x with
      | S754_finite _ _ _ | S754_zero false => true
      | S754_zero true | S754_infinity _ | S754_nan => false
      end
  | JArray items => forallb plain items
  | JObject fields => forallb (fun kv => plain kv.2) fields
  end.

(** [JSON.stringify] recurses into arrays and objects, and on a value
    nested deeper than the stack has room for it throws this error. *)
Definition stack_overflow : JsError :=
  {| err_name := "RangeError";
     err_message := "Maximum call stack size exceeded" |}.

Definition JSON_stringify (room : bool) (v : json) : M json :=
  if room then ret (serialised v) else throw stack_overflow.

(** [res.json(value)], given whether the stack has room for the value. *)
Definition res_json_within (room : bool) (v : json) : M unit :=
  text <~ JSON_stringify room v ;;
  res_end (BodyJson text).

(** [res.json(value)] for the flat records the server builds itself, for
    which a stack that has reached the handler always has room. *)
Definition res_json (v : json) : M unit := res_json_within true v.

(** ** [Date.prototype.toISOString]

    The time value of a [Date] is a number of milliseconds since the epoch.
    [new Date()] never makes an invalid date, so the [RangeError] of
    [toISOString] cannot arise in the handlers and the rendering is a total
    function here. *)

Definition msPerDay : Z := 86400000.
Definition msPerHour : Z := 3600000.
Definition msPerMinute : Z := 60000.
Definition msPerSecond : Z := 1000.

(** The range of time values: 100,000,000 days either side of the epoch. *)
Definition maxTime : Z := 8640000000000000.
Definition valid_time (t : Z) : Prop := - maxTime <= t <= maxTime.

Definition Day (t : Z) : Z := t / msPerDay.

Definition HourFromTime (t : Z) : Z := (t / msPerHour) mod 24.
Definition MinFromTime (t : Z) : Z := (t / msPerMinute) mod 60.
Definition SecFromTime (t : Z) : Z := (t / msPerSecond) mod 60.
Definition msFromTime (t : Z) : Z := t mod msPerSecond.

(** The proleptic Gregorian calendar repeats every 400 years, which are
    146097 days.  A cycle starts on 1 March of a year divisible by 400;
    [split_cycle] turns a day of the cycle into the year of the cycle
    (starting in March), the month (1-12) and the day of the month. *)
Definition daysPerCycle : Z := 146097.
Definition epochShift : Z := 719468.

Definition year_of_cycle (doe : Z) : Z :=
  (doe - doe / 1460 + doe / 36524 - doe / 146096) / 365.

(** The days of the cycle before its year [yoe]. *)
Definition days_before_year (yoe : Z) : Z := 365 * yoe + yoe / 4 - yoe / 100.

(** From the day of a year that starts in March to the month and the day
    of the month. *)
Definition month_day (doy : Z) : Z * Z :=
  let mp := (5 * doy + 2) / 153 in
  let d := doy - (153 * mp + 2) / 5 + 1 in
  let m := if mp <? 10 then mp + 3 else mp - 9 in
  (m, d).

Definition day_of_year (m d : Z) : Z :=
  let mp := if 2 <? m then m - 3 else m + 9 in
  (153 * mp + 2) / 5 + d - 1.

Definition split_cycle (doe : Z) : Z * Z * Z :=
  let yoe := year_of_cycle doe in
  let '(m, d) := month_day (doe - days_before_year yoe) in
  (yoe, m, d).

Definition join_cycle (yoe m d : Z) : Z :=
  days_before_year yoe + day_of_year m d.

(** January and February belong to the cycle year that started the March
    before. *)
Definition year_carry (m : Z) : Z := if m <=? 2 then 1 else 0.

Definition civil_from_days (z : Z) : Z * Z * Z :=
  let z' := z + epochShift in
  let era := z' / daysPerCycle in
  let '(yoe, m, d) := split_cycle (z' mod daysPerCycle) in
  (yoe + era * 400 + year_carry m, m, d).

Definition days_from_civil (y m d : Z) : Z :=
  let y' := y - year_carry m in
  (y' / 400) * daysPerCycle + join_cycle (y' mod 400) m d - epochShift.

Definition YearFromTime (t : Z) : Z := (civil_from_days (Day t)).1.1.
(** The month here is 1-12, as it is printed. *)
Definition MonthFromTime (t : Z) : Z := (civil_from_days (Day t)).1.2.
Definition DateFromTime (t : Z) : Z := (civil_from_days (Day t)).2.

Definition InLeapYear (y : Z) : bool :=
  (y mod 4 =? 0) && (negb (y mod 100 =? 0) || (y mod 400 =? 0)).

Definition month_length (leap : bool) (m : Z) : Z :=
  if m =? 2 then (if leap then 29 else 28)
  else if (m =? 4) || (m =? 6) || (m =? 9) || (m =? 11) then 30
  else 31.

Definition DaysInMonth (y m : Z) : Z := month_length (InLeapYear y) m.

Definition digit_char (d : Z) : ascii := ascii_of_nat (48 + Z.to_nat d).

(** [digits n x]: the last [n] decimal digits of [x], zero-padded. *)
Fixpoint digits (n : nat) (x : Z) : string :=
  match n with
  | O => ""
  | S n' => String (digit_char ((x / 10 ^ Z.of_nat n') mod 10)) (digits n' x)
  end.

(** Years 0-9999 print as four digits, the others as a sign and six. *)
Definition year_string (y : Z) : string :=
  if (0 <=? y) && (y <=? 9999) then digits 4 y
  else (if y <? 0 then "-" else "+") +:+ digits 6 (Z.abs y).

Definition toISOString (t : Z) : string :=
  year_string (YearFromTime t) +:+ "-" +:+ digits 2 (MonthFromTime t) +:+
  "-" +:+ digits 2 (DateFromTime t) +:+ "T" +:+ digits 2 (HourFromTime t) +:+
  ":" +:+ digits 2 (MinFromTime t) +:+ ":" +:+ digits 2 (SecFromTime t) +:+
  "." +:+ digits 3 (msFromTime t) +:+ "Z".

(** ** A strict reader of the date-time format of [toISOString]

    [Date_parse] reads a string of that format back to a time value.  It is
    not the platform's [Date.parse], which is more lenient (it takes a 30
    February or an hour 24): here a string is a valid date-time only when
    the fields have the right widths and separators, the month is 1-12, the
    day exists in that month of that year, hour, minute and second are
    below 24, 60 and 60, and the time value is in range. *)

Definition digit_of (c : ascii) : option Z :=
  let n := Z.of_nat (nat_of_ascii c) in
  if (48 <=? n) && (n <=? 57) then Some (n - 48) else None.

Fixpoint read_digits (n : nat) (acc : Z) (s : string) : option (Z * string) :=
  match n with
  | O => Some (acc, s)
  | S n' =>
      match s with
      | String c s' =>
          match digit_of c with
          | Some d => read_digits n' (10 * acc + d) s'
          | None => None
          end
      | EmptyString => None
      end
  end.

Definition expect (c : ascii) (s : string) : option string :=
  match s with
  | String c' s' => if decide (c' = c) then Some s' else None
  | EmptyString => None
  end.

Definition read_year (s : string) : option (Z * string) :=
  match s with
  | String c s' =>
      if decide (c = "+"%char) then read_digits 6 0 s'
      else if decide (c = "-"%char) then
        '(y, r) ← read_digits 6 0 s';
        if y =? 0 then None else Some (- y, r)
      else read_digits 4 0 s
  | EmptyString => None
  end.

Definition in_range (lo x hi : Z) : option unit :=
  if (lo <=? x) && (x <=? hi) then Some tt else None.

Definition Date_parse (s : string) : option Z :=
  '(y, s) ← read_year s;
  s ← expect "-" s;
  '(m, s) ← read_digits 2 0 s;
  _ ← in_range 1 m 12;
  s ← expect "-" s;
  '(d, s) ← read_digits 2 0 s;
  _ ← in_range 1 d (DaysInMonth y m);
  s ← expect "T" s;
  '(h, s) ← read_digits 2 0 s;
  _ ← in_range 0 h 23;
  s ← expect ":" s;
  '(mi, s) ← read_digits 2 0 s;
  _ ← in_range 0 mi 59;
  s ← expect ":" s;
  '(sec, s) ← read_digits 2 0 s;
  _ ← in_range 0 sec 59;
  s ← expect "." s;
  '(ms, s) ← read_digits 3 0 s;
  s ← expect "Z" s;
  if decide (s = "") then
    let t := days_from_civil y m d * msPerDay + h * msPerHour
             + mi * msPerMinute + sec * msPerSecond + ms in
    if (- maxTime <=? t) && (t <=? maxTime) then Some t else None
  else None.

(** ** The handlers of the server *)

(** [app.get('/')], lines 66-68 *)
Definition root_handler : M unit :=
  res_send "Hello, World! The server is running.".

(** [app.get('/health')], lines 79-89 *)
Definition health_handler : M unit :=
  now <~ new_Date ;;
  let healthStatus :=
    JObject [("status", JString "ok");
             ("message", JString "Service is healthy");
             ("timestamp", JString (toISOString now))] in
  t <~ new_Date ;;
  time <~ toLocaleTimeString t ;;
  stdout_write (nl +:+ "[" +:+ time +:+ "] Health check successful." +:+ nl) ;;;
  res_status 200 ;;;
  res_json healthStatus.

(** [app.get('/env')], lines 98-119 *)
Definition env_handler : M unit :=
  t <~ new_Date ;;
  time <~ toLocaleTimeString t ;;
  stdout_write (nl +:+ "[" +:+ time +:+
    "] Request received for /env. Reporting environment variables." +:+ nl) ;;;
  testkey1 <~ process_env "testkey1" ;;
  testkey2 <~ process_env "testkey2" ;;
  testkey3 <~ process_env "testkey3" ;;
  testkey4 <~ process_env "testkey4" ;;
  kubernetes <~ process_env "KUBERNETES_SERVICE_HOST" ;;
  let relevantEnvVars :=
    JObject [("testkey1", JString (or_else testkey1 "NOT FOUND"));
             ("testkey2", JString (or_else testkey2 "NOT FOUND"));
             ("testkey3", JString (or_else testkey3 "NOT FOUND"));
             ("testkey4", JString (or_else testkey4 "NOT FOUND"));
             ("KUBERNETES_SERVICE_HOST",
              JString (or_else kubernetes "NOT FOUND"))] in
  res_status 200 ;;;
  res_json (JObject
    [("message",
      JString "Environment variables as seen by the Node.js process:");
     ("variables", relevantEnvVars)]).

(** [new Error(message)] *)
Definition new_Error (message : string) : JsError :=
  {| err_name := "Error"; err_message := message |}.

Definition posts_url : string := "https://jsonplaceholder.typicode.com/posts".
Definition fact_url : string :=
  "https://uselessfacts.jsph.pl/random.json?language=en".

Definition posts_failure : json :=
  JObject [("message", JString "Failed to fetch posts from external service.")].
Definition fact_failure : json :=
  JObject [("message", JString "Failed to fetch a random fact.")].

(** [app.get('/posts')], lines 133-147 *)
Definition posts_handler : M unit :=
  t <~ new_Date ;;
  time <~ toLocaleTimeString t ;;
  stdout_write (nl +:+ "[" +:+ time +:+
    "] Request received for /posts. Fetching from external API..." +:+ nl) ;;;
  try_catch
    (response <~ fetch posts_url ;;
     (if negb (ok response)
      then throw (new_Error ("External API responded with status: " +:+
                             pretty (status response)))
      else ret tt) ;;;
     posts <~ response_json response ;;
     res_status 200 ;;;
     res_json_within (stack_room response) posts)
    (fun error =>
       console_error "Error fetching from JSONPlaceholder:"
                     (err_message error) ;;;
       res_status 500 ;;;
       res_json posts_failure).

(** [app.get('/random-fact')], lines 155-169 *)
Definition random_fact_handler : M unit :=
  t <~ new_Date ;;
  time <~ toLocaleTimeString t ;;
  stdout_write (nl +:+ "[" +:+ time +:+
    "] Request received for /random-fact. Fetching from external API..."
    +:+ nl) ;;;
  try_catch
    (response <~ fetch fact_url ;;
     (if negb (ok response)
      then throw (new_Error ("External API responded with status: " +:+
                             pretty (status response)))
      else ret tt) ;;;
     fact <~ response_json response ;;
     res_status 200 ;;;
     res_json_within (stack_room response) fact)
    (fun error =>
       console_error "Error fetching from Useless Facts API:"
                     (err_message error) ;;;
       res_status 500 ;;;
       res_json fact_failure).

(** The root handler of the plain [src/index.js], lines 11-13. *)
Module IndexJs.

Definition root_handler : M unit := res_send "Hello, World!".

Definition port : Z := 3000.

(** The callback of [app.listen], lines 16-18. *)
Definition listen_callback : M unit :=
  console_log ("Server running at http://localhost:" +:+ pretty port +:+ "/").

End IndexJs.

(** ** The spinner *)

Definition spinnerChars : list string := ["|"; "/"; "-"; "\"].

(** Reading an array out of bounds gives [undefined], which a template
    literal prints as such. *)
Definition template_of (v : option string) : string :=
  default "undefined" v.

Definition set_spinnerIndex (i : nat) : M unit :=
  modify_world (fun w =>
    {| clock := clock w; clock_reads := clock_reads w;
       localeTime := localeTime w; env := env w; net := net w;
       stdout := stdout w; stderr := stderr w; spinnerIndex := i |}).

Definition get_spinnerIndex : M nat :=
  fun c => (Returned (spinnerIndex (world c)), c).

(** The callback of [setInterval], lines 53-62. *)
Definition spinner_tick : M unit :=
  i <~ get_spinnerIndex ;;
  let char := spinnerChars !! i in
  t <~ new_Date ;;
  time <~ toLocaleTimeString t ;;
  stdout_write ("[" +:+ time +:+ "] Server is running... " +:+
                template_of char +:+ cr) ;;;
  i <~ get_spinnerIndex ;;
  set_spinnerIndex ((i + 1) `mod` length spinnerChars)%nat.

(** ** The running server *)

Inductive Route : Type := Root | Health | Env | Posts | RandomFact.

Definition handler (r : Route) : M unit :=
  match r with
  | Root => root_handler
  | Health => health_handler
  | Env => env_handler
  | Posts => posts_handler
  | RandomFact => random_fact_handler
  end.

(** The two relays are [async] functions. *)
Definition is_async (r : Route) : bool :=
  match r with
  | Posts | RandomFact => true
  | _ => false
  end.

Inductive Event : Type :=
  | Request (r : Route)
  | Tick.

Record Server : Type := mkServer {
  sworld : World;
  (** the responses given so far, oldest first *)
  replies : list (Route * Response);
  (** whether the process is still running *)
  alive : bool
}.

(** Module initialisation: the spinner starts at index 0. *)
Definition boot (w : World) : Server :=
  {| sworld :=
       {| clock := clock w; clock_reads := clock_reads w;
          localeTime := localeTime w; env := env w; net := net w;
          stdout := stdout w; stderr := stderr w; spinnerIndex := 0 |};
     replies := [];
     alive := true |}.

Definition reply_of (r : Route) (x : Res) : list (Route * Response) :=
  match sent x with
  | Some resp => [(r, resp)]
  | None => []
  end.

(** What Express answers when a synchronous handler throws before it has
    sent anything. *)
Definition express_error : Response :=
  {| resp_status := 500; resp_body := BodyText "Internal Server Error" |}.

(** One turn of the event loop.  An error thrown by a synchronous handler
    is caught by Express; the rejection of an [async] handler is nobody's,
    and an unhandled rejection ends the process. *)
Definition step (s : Server) (ev : Event) : Server :=
  if alive s then
    match ev with
    | Request r =>
        match handler r {| world := sworld s; res := fresh_res |} with
        | (Returned _, c) =>
            {| sworld := world c;
               replies := replies s ++ reply_of r (res c);
               alive := true |}
        | (Thrown _, c) =>
            if is_async r then
              {| sworld := world c; replies := replies s; alive := false |}
            else
              {| sworld := world c;
                 replies := replies s ++
                   match sent (res c) with
                   | Some resp => [(r, resp)]
                   | None => [(r, express_error)]
                   end;
                 alive := true |}
        end
    | Tick =>
        match spinner_tick {| world := sworld s; res := fresh_res |} with
        | (Returned _, c) =>
            {| sworld := world c; replies := replies s; alive := true |}
        | (Thrown _, c) =>
            {| sworld := world c; replies := replies s; alive := false |}
        end
    end
  else s.

Definition run (s : Server) (evs : list Event) : Server :=
  fold_left step evs s.

(** The response a handler gives to a fresh request, if it gives one. *)
Definition response_of (m : M unit) (w : World) : option Response :=
  sent (res (m {| world := w; res := fresh_res |}).2).

(** ** Shapes of bodies *)

Inductive Shape : Type :=
  | ShNull
  | ShBool
  | ShNumber
  | ShString
  | ShArray (items : list Shape)
  | ShObject (fields : list (string * Shape))
  | ShText.

Fixpoint shape_of (v : json) : Shape :=
  match v with
  | JNull => ShNull
  | JBool _ => ShBool
  | JNumber _ => ShNumber
  | JString _ => ShString
  | JArray items => ShArray (map shape_of items)
  | JObject fields => ShObject (map (fun kv => (kv.1, shape_of kv.2)) fields)
  end.

Definition body_shape (b : Body) : Shape :=
  match b with
  | BodyText _ => ShText
  | BodyJson v => shape_of v
  end.

(** The body with the [timestamp] field of a top-level object left out. *)
Definition without_timestamp (b : Body) : Body :=
  match b with
  | BodyJson (JObject fields) =>
      BodyJson (JObject
        (filter (fun kv => kv.1 <> "timestamp") fields))
  | _ => b
  end.

(** The field of a JSON object, as [body.name] reads it. *)
Definition field (name : string) (v : json) : option json :=
  match v with
  | JObject fields =>
      (fun kv : string * json => kv.2) <$>
        List.find (fun kv => String.eqb kv.1 name) fields
  | _ => None
  end.

(** ** Vocabulary of the specifications *)

(** A handler, started on a fresh request in world [w], returns normally
    having sent the one response [resp]. *)
Definition responds (m : M unit) (w : World) (resp : Response) : Prop :=
  exists c, m {| world := w; res := fresh_res |} = (Returned tt, c) /\
            sent (res c) = Some resp.

(** The world a handler leaves behind. *)
Definition world_after (m : M unit) (w : World) : World :=
  world (m {| world := w; res := fresh_res |}).2.

(** The upstream succeeded with the parsed body [v]. *)
Definition upstream_success (o : FetchOutcome) (v : json) : Prop :=
  exists r, o = Resolved r /\ 200 <= status r <= 299 /\
            json_result r = JsonParsed v.

(** The upstream succeeded with the parsed body [v], and the stack has room
    to serialise it. *)
Definition serialisable_success (o : FetchOutcome) (v : json) : Prop :=
  exists r, o = Resolved r /\ 200 <= status r <= 299 /\
            json_result r = JsonParsed v /\ stack_room r = true.

(** The upstream succeeded with the parsed body [v], which is nested too
    deep for the stack. *)
Definition unserialisable_success (o : FetchOutcome) (v : json) : Prop :=
  exists r, o = Resolved r /\ 200 <= status r <= 299 /\
            json_result r = JsonParsed v /\ stack_room r = false.

(** The three ways an upstream call fails. *)
Inductive upstream_failure : FetchOutcome -> Prop :=
  | transport_error e : upstream_failure (Rejected e)
  | non_success_status r :
      ~ (200 <= status r <= 299) -> upstream_failure (Resolved r)
  | parse_error r e :
      json_result r = JsonRejected e -> upstream_failure (Resolved r).

Definition with_env (e : gmap string string) (w : World) : World :=
  {| clock := clock w; clock_reads := clock_reads w;
     localeTime := localeTime w; env := e; net := net w;
     stdout := stdout w; stderr := stderr w;
     spinnerIndex := spinnerIndex w |}.

Definition with_net (n : string -> FetchOutcome) (w : World) : World :=
  {| clock := clock w; clock_reads := clock_reads w;
     localeTime := localeTime w; env := env w; net := n;
     stdout := stdout w; stderr := stderr w;
     spinnerIndex := spinnerIndex w |}.

(** [p] holds of the [n] integers from [from] on. *)
Fixpoint check_range (n : nat) (from : Z) (p : Z -> bool) : bool :=
  match n with
  | O => true
  | S n' => p from && check_range n' (from + 1) p
  end.

(** A day of a year that starts in March, the 366th being 29 February,
    splits into a month and a day of that month, from which it is
    recovered. *)
Definition month_day_ok (doy : Z) : bool :=
  let '(m, d) := month_day doy in
  (1 <=? m) && (m <=? 12) && (1 <=? d) &&
  (d <=? month_length (doy =? 365) m) && (day_of_year m d =? doy) &&
  implb (doy =? 365) (m =? 2).

(** What a relay answers, by cases on what its upstream did. *)
Definition relay_response (o : FetchOutcome) (failure : json) : Response :=
  match o with
  | Resolved r =>
      if ok r then
        match json_result r with
        | JsonParsed v =>
            if stack_room r
            then {| resp_status := 200; resp_body := BodyJson (serialised v) |}
            else {| resp_status := 500; resp_body := BodyJson failure |}
        | JsonRejected _ =>
            {| resp_status := 500; resp_body := BodyJson failure |}
        end
      else {| resp_status := 500; resp_body := BodyJson failure |}
  | Rejected _ => {| resp_status := 500; resp_body := BodyJson failure |}
  end.

(** The two relay endpoints, with their handler, upstream and fixed
    failure body. *)
Inductive Relay : Type := RelayPosts | RelayRandomFact.

Definition relay_handler (k : Relay) : M unit :=
  match k with
  | RelayPosts => posts_handler
  | RelayRandomFact => random_fact_handler
  end.

Definition relay_url (k : Relay) : string :=
  match k with
  | RelayPosts => posts_url
  | RelayRandomFact => fact_url
  end.

Definition relay_failure (k : Relay) : json :=
  match k with
  | RelayPosts => posts_failure
  | RelayRandomFact => fact_failure
  end.

Definition relay_route (k : Relay) : Route :=
  match k with
  | RelayPosts => Posts
  | RelayRandomFact => RandomFact
  end.

Definition relevant_names : list string :=
  ["testkey1"; "testkey2"; "testkey3"; "testkey4"; "KUBERNETES_SERVICE_HOST"].

Definition env_body (k1 k2 k3 k4 host : string) : Body :=
  BodyJson (JObject
    [("message",
      JString "Environment variables as seen by the Node.js process:");
     ("variables",
      JObject [("testkey1", JString k1); ("testkey2", JString k2);
               ("testkey3", JString k3); ("testkey4", JString k4);
               ("KUBERNETES_SERVICE_HOST", JString host)])]).

Definition requests_of (evs : list Event) : list Route :=
  omap (fun ev => match ev with Request r => Some r | Tick => None end) evs.

Definition is_tick (ev : Event) : bool :=
  match ev with
  | Tick => true
  | Request _ => false
  end.

Definition ticks_of (evs : list Event) : nat :=
  length (List.filter is_tick evs).

(** A world to run the handlers in: a clock that advances a quarter of a
    second per reading, an empty environment, an unreachable network. *)
Definition sample_world : World :=
  {| clock := fun n => 1700000000000 + 250 * Z.of_nat n;
     clock_reads := 0;
     localeTime := fun t =>
       digits 2 (HourFromTime t) +:+ ":" +:+ digits 2 (MinFromTime t) +:+
       ":" +:+ digits 2 (SecFromTime t);
     env := ∅;
     net := fun _ => Rejected {| err_name := "TypeError";
                                 err_message := "fetch failed" |};
     stdout := [];
     stderr := [];
     spinnerIndex := 0 |}.

Definition sample_posts : json :=
  JArray [JObject [("userId", JNumber (S754_finite false 1 0));
                   ("title", JString "qui est esse")]].

(** An array in an array, a hundred thousand deep. *)
Definition deep_body : json :=
  Nat.iter (Z.to_nat 100000) (fun v => JArray [v]) JNull.

(** An upstream that answers 200 with a body nested too deep for the
    stack. *)
Definition overflowing (v : json) : string -> FetchOutcome :=
  fun _ => Resolved {| status := 200; json_result := JsonParsed v;
                       stack_room := false |}.

Definition upstream_of (code : Z) (b : BodyOutcome) : string -> FetchOutcome :=
  fun _ => Resolved {| status := code; json_result := b; stack_room := true |}.

Definition health_body (timestamp : string) : Body :=
  BodyJson (JObject [("status", JString "ok");
                     ("message", JString "Service is healthy");
                     ("timestamp", JString timestamp)]).

(** What each handler answers in a world. *)
Definition expected_response (r : Route) (w : World) : Response :=
  match r with
  | Root =>
      {| resp_status := 200;
         resp_body := BodyText "Hello, World! The server is running." |}
  | Health =>
      {| resp_status := 200;
         resp_body := health_body (toISOString (clock w (clock_reads w))) |}
  | Env =>
      {| resp_status := 200;
         resp_body :=
           env_body (or_else (env w !! "testkey1") "NOT FOUND")
                    (or_else (env w !! "testkey2") "NOT FOUND")
                    (or_else (env w !! "testkey3") "NOT FOUND")
                    (or_else (env w !! "testkey4") "NOT FOUND")
                    (or_else (env w !! "KUBERNETES_SERVICE_HOST") "NOT FOUND")
      |}
  | Posts => relay_response (net w posts_url) posts_failure
  | RandomFact => relay_response (net w fact_url) fact_failure
  end.

(** ** Start-up and the route table *)

Definition port : Z := 3000.

Definition banner_rule : string := "=============================================".

(** The callback of [app.listen], lines 173-186. *)
Definition listen_callback : M unit :=
  console_log nl ;;;
  console_log banner_rule ;;;
  console_log ("Server running at http://localhost:" +:+ pretty port +:+ "/") ;;;
  console_log banner_rule ;;;
  console_log "Test Endpoints:" ;;;
  console_log ("- http://localhost:" +:+ pretty port +:+ "/") ;;;
  console_log ("- http://localhost:" +:+ pretty port +:+ "/health") ;;;
  console_log ("- http://localhost:" +:+ pretty port +:+ "/env") ;;;
  console_log ("- http://localhost:" +:+ pretty port +:+ "/posts") ;;;
  console_log ("- http://localhost:" +:+ pretty port +:+ "/random-fact") ;;;
  console_log banner_rule.

(** The paths the handlers are registered on with [app.get], in the order
    of registration. *)
Definition routes : list (string * Route) :=
  [("/", Root); ("/health", Health); ("/env", Env); ("/posts", Posts);
   ("/random-fact", RandomFact)].

(** ** What a handler leaves in the process state *)

(** The response and the two output streams after a handler has run on a
    fresh request. *)
Definition observed (m : M unit) (w : World)
  : option Response * list string * list string :=
  let c := (m {| world := w; res := fresh_res |}).2 in
  (sent (res c), stdout (world c), stderr (world c)).

(** The message of the error a relay catches, if it catches one: the
    rejection of [fetch], the error thrown on a status outside 200-299, the
    rejection of [response.json()], or the error [res.json] throws on a
    parsed body it has no stack to serialise. *)
Definition caught_message (o : FetchOutcome) : option string :=
  match o with
  | Rejected e => Some (err_message e)
  | Resolved r =>
      if ok r then
        match json_result r with
        | JsonParsed _ =>
            if stack_room r then None else Some (err_message stack_overflow)
        | JsonRejected e => Some (err_message e)
        end
      else Some ("External API responded with status: " +:+ pretty (status r))
  end.

Definition relay_log_prefix (k : Relay) : string :=
  match k with
  | RelayPosts => "Error fetching from JSONPlaceholder:"
  | RelayRandomFact => "Error fetching from Useless Facts API:"
  end.

Definition relay_error_lines (k : Relay) (w : World) : list string :=
  match caught_message (net w (relay_url k)) with
  | Some message => [relay_log_prefix k +:+ " " +:+ message +:+ nl]
  | None => []
  end.

(** How many times a handler reads the clock. *)
Definition reads_of (r : Route) : nat :=
  match r with
  | Root => 0
  | Health => 2
  | Env | Posts | RandomFact => 1
  end.

(** The text a handler logs after the time stamp, if it logs. *)
Definition log_text (r : Route) : option string :=
  match r with
  | Root => None
  | Health => Some "Health check successful."
  | Env =>
      Some "Request received for /env. Reporting environment variables."
  | Posts =>
      Some "Request received for /posts. Fetching from external API..."
  | RandomFact =>
      Some "Request received for /random-fact. Fetching from external API..."
  end.

(** The log line of a handler carries the time of its last clock reading. *)
Definition log_lines (r : Route) (w : World) : list string :=
  match log_text r with
  | Some text =>
      [nl +:+ "[" +:+
       localeTime w (clock w (reads_of r - 1 + clock_reads w)%nat) +:+
       "] " +:+ text +:+ nl]
  | None => []
  end.

Definition error_lines (r : Route) (w : World) : list string :=
  match r with
  | Posts => relay_error_lines RelayPosts w
  | RandomFact => relay_error_lines RelayRandomFact w
  | Root | Health | Env => []
  end.

Definition expected_world (r : Route) (w : World) : World :=
  {| clock := clock w; clock_reads := (reads_of r + clock_reads w)%nat;
     localeTime := localeTime w; env := env w; net := net w;
     stdout := stdout w ++ log_lines r w;
     stderr := stderr w ++ error_lines r w;
     spinnerIndex := spinnerIndex w |}.

(** The line a tick prints. *)
Definition tick_line (w : World) : string :=
  "[" +:+ localeTime w (clock w (clock_reads w)) +:+
  "] Server is running... " +:+
  template_of (spinnerChars !! spinnerIndex w) +:+ cr.

(** The lines a sequence of events sends to each stream. *)
Definition stdout_lines (evs : list Event) : nat :=
  sum_list_with
    (fun ev => match ev with
               | Tick => 1%nat
               | Request Root => 0%nat
               | Request _ => 1%nat
               end) evs.

Definition stderr_lines (n : string -> FetchOutcome) (evs : list Event) : nat :=
  sum_list_with
    (fun ev => match ev with
               | Request Posts => length (option_list (caught_message (n posts_url)))
               | Request RandomFact =>
                   length (option_list (caught_message (n fact_url)))
               | _ => 0%nat
               end) evs.

Definition tick_world (w : World) : World :=
  {| clock := clock w; clock_reads := S (clock_reads w);
     localeTime := localeTime w; env := env w; net := net w;
     stdout := stdout w ++ [tick_line w]; stderr := stderr w;
     spinnerIndex := ((spinnerIndex w + 1) mod length spinnerChars)%nat |}.

(** The process state across events, while the process lives. *)
Definition world_step (w : World) (ev : Event) : World :=
  match ev with
  | Request r => expected_world r w
  | Tick => tick_world w
  end.

Definition world_run (w : World) (evs : list Event) : World :=
  fold_left world_step evs w.

(** A line that starts and ends with a line feed. *)
Definition framed (line : string) : Prop :=
  exists text, line = nl +:+ text +:+ nl.

(** A line of the spinner: one of its four characters, then a carriage
    return and no line feed at either end. *)
Definition spinner_line (line : string) : Prop :=
  exists time c,
    c ∈ spinnerChars /\
    line = "[" +:+ time +:+ "] Server is running... " +:+ c +:+ cr.

(** ** The [sed] commands of the image (Dockerfile, lines 22-25)

    [sed -i 's/PATTERN/REPLACEMENT/' FILE] rewrites, in every line of the
    file, the leftmost longest match of the pattern.  Without [-E] the
    pattern is a basic regular expression, in which [?] is an ordinary
    character. *)
Module Sed.

Inductive atom : Type :=
  | Lit (c : ascii)
  | AnyChar.

Record item : Type := mkItem {
  item_atom : atom;
  starred : bool
}.

Record regex : Type := mkRegex {
  anchored : bool;
  items : list item
}.

(** The characters the patterns here do not use and this reading of basic
    regular expressions does not cover. *)
Definition unsupported (c : ascii) : bool :=
  bool_decide (c ∈ ["\"; "["; "$"; "^"; "*"]%char).

Fixpoint parse_items (s : string) : option (list item) :=
  match s with
  | EmptyString => Some []
  | String c s' =>
      if unsupported c then None
      else
        let a := if decide (c = "."%char) then AnyChar else Lit c in
        match s' with
        | String c' s'' =>
            if decide (c' = "*"%char)
            then cons (mkItem a true) <$> parse_items s''
            else cons (mkItem a false) <$> parse_items s'
        | EmptyString => Some [mkItem a false]
        end
  end.

Definition parse_regex (s : string) : option regex :=
  match s with
  | String c s' =>
      if decide (c = "^"%char) then mkRegex true <$> parse_items s'
      else mkRegex false <$> parse_items s
  | EmptyString => Some (mkRegex false [])
  end.

(** A replacement is taken literally unless it holds [&] or a backslash. *)
Fixpoint literal_replacement (s : string) : bool :=
  match s with
  | EmptyString => true
  | String c s' =>
      negb (bool_decide (c ∈ ["&"; "\"]%char)) && literal_replacement s'
  end.

Definition atom_matches (a : atom) (c : ascii) : bool :=
  match a with
  | Lit c' => bool_decide (c = c')
  | AnyChar => true
  end.

(** What is left of [s] after each number of repetitions of the atom. *)
Fixpoint star_tails (a : atom) (s : string) : list string :=
  s :: match s with
       | String c s' => if atom_matches a c then star_tails a s' else []
       | EmptyString => []
       end.

(** What is left of [s] after each way the items match at its start. *)
Fixpoint match_tails (its : list item) (s : string) : list string :=
  match its with
  | [] => [s]
  | it :: rest =>
      if starred it
      then flat_map (match_tails rest) (star_tails (item_atom it) s)
      else
        match s with
        | String c s' =>
            if atom_matches (item_atom it) c then match_tails rest s' else []
        | EmptyString => []
        end
  end.

(** The longest match leaves the shortest tail. *)
Definition shortest (tails : list string) : option string :=
  foldr (fun s best =>
           match best with
           | Some b =>
               if (String.length s <? String.length b)%nat
               then Some s else Some b
           | None => Some s
           end) None tails.

(** The leftmost match: the text before it and the text after it. *)
Fixpoint search (its : list item) (s : string) : option (string * string) :=
  match shortest (match_tails its s) with
  | Some tail => Some (EmptyString, tail)
  | None =>
      match s with
      | String c s' =>
          (fun found : string * string => (String c found.1, found.2)) <$>
            search its s'
      | EmptyString => None
      end
  end.

Definition find_match (re : regex) (s : string) : option (string * string) :=
  if anchored re
  then (fun tail => (EmptyString, tail)) <$> shortest (match_tails (items re) s)
  else search (items re) s.

(** [s/pattern/replacement/] on one line: the first match only. *)
Definition substitute (pattern replacement line : string) : option string :=
  re ← parse_regex pattern;
  if literal_replacement replacement then
    Some match find_match re line with
         | Some (before, after) => before +:+ replacement +:+ after
         | None => line
         end
  else None.

(** [sed -i 's/pattern/replacement/' file], the file as its lines. *)
Definition sed_i (pattern replacement : string) (file : list string)
  : option (list string) :=
  mapM (substitute pattern replacement) file.

(** The pattern and the replacement of each of the four commands of the
    [RUN] instruction, which [&&] chains in this order. *)
Definition commands : list (string * string) :=
  [("^#?PermitRootLogin .*", "PermitRootLogin prohibit-password");
   ("^#?PubkeyAuthentication .*", "PubkeyAuthentication yes");
   ("^#?PasswordAuthentication .*", "PasswordAuthentication no");
   ("^#?ChallengeResponseAuthentication .*",
    "ChallengeResponseAuthentication no")].

Definition harden (sshd_config : list string) : option (list string) :=
  foldl (fun file cmd => file ≫= sed_i cmd.1 cmd.2) (Some sshd_config)
        commands.

(** The text between the [^] and the [.*] of a pattern. *)
Definition trigger_of (pattern : string) : string :=
  substring 1 (String.length pattern - 3) pattern.

(** The pattern [^text.*] as items. *)
Definition literal_then_rest (text : string) : regex :=
  {| anchored := true;
     items := map (fun c => mkItem (Lit c) false) (list_ascii_of_string text)
              ++ [mkItem AnyChar true] |}.

(** A line that starts with the trigger becomes the replacement; any
    other line stays. *)
Definition rewrite_line (trigger replacement line : string) : string :=
  if String.prefix trigger line then replacement else line.

Definition harden_line (line : string) : string :=
  foldl (fun l cmd => rewrite_line (trigger_of cmd.1) cmd.2 l) line commands.

End Sed.

Arguments toISOString : simpl never.
Arguments deep_body : simpl never.

(** ** The handlers, run *)

Ltac run_handler :=
  unfold responds; cbn; eexists; split; reflexivity.

Ltac run_relay :=
  unfold try_catch, bind, fetch, response_json, relay_response; cbn;
  repeat match goal with
         | |- context [match ?o with Resolved _ => _ | Rejected _ => _ end] =>
             destruct o; cbn
         | |- context [if ok ?r then _ else _] => destruct (ok r); cbn
         | |- context [negb (ok ?r)] => destruct (ok r); cbn
         | |- context [match json_result ?r with _ => _ end] =>
             destruct (json_result r); cbn
         | |- context [stack_room ?r] => destruct (stack_room r); cbn
         end.

(** A handler gives one response only: what it responds is determined. *)
Lemma responds_unique m w resp1 resp2 :
  responds m w resp1 -> responds m w resp2 -> resp1 = resp2.
Proof.
  intros (c1 & Hrun1 & Hsent1) (c2 & Hrun2 & Hsent2). congruence.
Qed.

Lemma root_responds w :
  responds root_handler w
    {| resp_status := 200;
       resp_body := BodyText "Hello, World! The server is running." |}.
Proof. run_handler. Qed.

Lemma index_root_responds w :
  responds IndexJs.root_handler w
    {| resp_status := 200; resp_body := BodyText "Hello, World!" |}.
Proof. run_handler. Qed.

Lemma posts_responds w :
  responds posts_handler w (relay_response (net w posts_url) posts_failure).
Proof.
  unfold responds, posts_handler. run_relay; eexists; split; reflexivity.
Qed.

Lemma random_fact_responds w :
  responds random_fact_handler w
    (relay_response (net w fact_url) fact_failure).
Proof.
  unfold responds, random_fact_handler.
  run_relay; eexists; split; reflexivity.
Qed.

Lemma relay_responds k w :
  responds (relay_handler k) w
    (relay_response (net w (relay_url k)) (relay_failure k)).
Proof. destruct k; [apply posts_responds | apply random_fact_responds]. Qed.

Lemma ok_true r : ok r = true <-> 200 <= status r <= 299.
Proof. unfold ok. rewrite andb_true_iff, !Z.leb_le. reflexivity. Qed.

Lemma ok_false r : ok r = false <-> ~ (200 <= status r <= 299).
Proof. rewrite <- ok_true. destruct (ok r); split; congruence. Qed.

Lemma relay_response_success o failure v :
  serialisable_success o v ->
  relay_response o failure =
    {| resp_status := 200; resp_body := BodyJson (serialised v) |}.
Proof.
  intros (r & -> & Hstatus & Hbody & Hroom). unfold relay_response.
  apply ok_true in Hstatus. rewrite Hstatus, Hbody, Hroom. reflexivity.
Qed.


Lemma relay_response_failure o failure :
  upstream_failure o ->
  relay_response o failure =
    {| resp_status := 500; resp_body := BodyJson failure |}.
Proof.
  intros H. destruct H as [e | r Hstatus | r e Hbody]; cbn.
  - reflexivity.
  - apply ok_false in Hstatus. rewrite Hstatus. reflexivity.
  - rewrite Hbody. destruct (ok r); reflexivity.
Qed.



Lemma json_induction (P : json -> Prop) :
  P JNull -> (forall b, P (JBool b)) -> (forall x, P (JNumber x)) ->
  (forall s, P (JString s)) ->
  (forall items, Forall P items -> P (JArray items)) ->
  (forall fields, Forall (fun kv => P kv.2) fields -> P (JObject fields)) ->
  forall v, P v.
Proof.
  intros Hnull Hbool Hnumber Hstring Harray Hobject.
  fix IH 1.
  intros [| b | x | s | items | fields];
    [exact Hnull | apply Hbool | apply Hnumber | apply Hstring | |].
  - apply Harray. induction items as [| v items IHitems]; constructor.
    + apply IH.
    + exact IHitems.
  - apply Hobject. induction fields as [| kv fields IHfields]; constructor.
    + apply IH.
    + exact IHfields.
Qed.

(** A value with only numbers that a JSON text can carry is sent as it
    is. *)
Lemma serialised_plain v : plain v = true -> serialised v = v.
Proof.
  induction v as [| b | x | s | items IHitems | fields IHfields]
    using json_induction; cbn [plain serialised]; try reflexivity.
  - destruct x as [[] | | |]; try discriminate; reflexivity.
  - intros Hplain. f_equal.
    induction IHitems as [| v items Hv _ IH]; [reflexivity |].
    cbn [forallb map] in *. apply andb_true_iff in Hplain as [Hhere Hrest].
    rewrite (Hv Hhere), (IH Hrest). reflexivity.
  - intros Hplain. f_equal.
    induction IHfields as [| [key v] fields Hv _ IH]; [reflexivity |].
    cbn [forallb map fst snd] in *.
    apply andb_true_iff in Hplain as [Hhere Hrest].
    rewrite (Hv Hhere), (IH Hrest). reflexivity.
Qed.


(** ** The relays *)

(** C1 as stated fails: a parsed body that holds an infinity is sent with
    [null] in its place, and a parsed body nested too deep for the stack is
    answered 500. *)
Lemma posts_body_is_not_always_relayed :
  (let v := JArray [JNumber (S754_infinity false)] in
   let w := with_net (upstream_of 200 (JsonParsed v)) sample_world in
   upstream_success (net w posts_url) v /\
   ~ responds posts_handler w
       {| resp_status := 200; resp_body := BodyJson v |}) /\
  (let w := with_net (overflowing deep_body) sample_world in
   upstream_success (net w posts_url) deep_body /\
   ~ responds posts_handler w
       {| resp_status := 200; resp_body := BodyJson deep_body |}).
Proof.
  split; cbv zeta.
  - split.
    + eexists. split; [reflexivity |]. split; [cbn; lia | reflexivity].
    + intros H.
      pose proof (responds_unique _ _ _ _ H (posts_responds _)) as Heq.
      cbn in Heq. discriminate Heq.
  - split.
    + eexists. split; [reflexivity |]. split; [cbn; lia | reflexivity].
    + intros H.
      pose proof (responds_unique _ _ _ _ H (posts_responds _)) as Heq.
      cbn in Heq. discriminate Heq.
Qed.

(** C1, amended: when the upstream of [/posts] answers with a status in
    200-299 and a body that parses to a value the stack has room to
    serialise, the handler responds 200 with the serialisation of that
    value: the value itself, but for the non-finite numbers, sent as
    [null], and negative zero, sent as [0]; a value without such numbers is
    sent unchanged. *)
Theorem posts_relays_serialised_body w v :
  serialisable_success (net w posts_url) v ->
  responds posts_handler w
    {| resp_status := 200; resp_body := BodyJson (serialised v) |} /\
  (plain v = true -> serialised v = v).
Proof.
  intros H. split; [| apply serialised_plain].
  rewrite <- (relay_response_success _ posts_failure _ H).
  apply posts_responds.
Qed.

Lemma posts_relays_serialised_body_witness :
  let w := with_net (upstream_of 200 (JsonParsed sample_posts)) sample_world in
  serialisable_success (net w posts_url) sample_posts /\
  responds posts_handler w
    {| resp_status := 200; resp_body := BodyJson sample_posts |}.
Proof.
  assert (H : serialisable_success
                (net (with_net (upstream_of 200 (JsonParsed sample_posts))
                               sample_world) posts_url) sample_posts).
  { eexists. split; [reflexivity |]. split; [cbn; lia |]. split; reflexivity. }
  split; [exact H |].
  destruct (posts_relays_serialised_body _ _ H) as [Hresp Hplain].
  rewrite (Hplain eq_refl) in Hresp. exact Hresp.
Defined.

(** C2: when the upstream of a relay answers with a status outside 200-299,
    or the fetch fails in transport, or the body does not parse, the relay
    responds exactly 500 with its own fixed message; the response is that
    constant, so nothing of the upstream's status or body reaches the
    caller. *)
Theorem relay_failure_is_fixed_500 k w :
  upstream_failure (net w (relay_url k)) ->
  responds (relay_handler k) w
    {| resp_status := 500;
       resp_body := BodyJson (JObject
         [("message",
           JString match k with
                   | RelayPosts =>
                       "Failed to fetch posts from external service."
                   | RelayRandomFact => "Failed to fetch a random fact."
                   end)]) |}.
Proof.
  intros H. pose proof (relay_responds k w) as Hr.
  rewrite (relay_response_failure _ _ H) in Hr. destruct k; exact Hr.
Qed.

Lemma relay_failure_is_fixed_500_witness :
  let w := with_net (upstream_of 404 (JsonParsed sample_posts)) sample_world in
  upstream_failure (net w (relay_url RelayPosts)) /\
  responds (relay_handler RelayPosts) w
    {| resp_status := 500;
       resp_body := BodyJson (JObject
         [("message",
           JString "Failed to fetch posts from external service.")]) |}.
Proof.
  assert (H : upstream_failure
                (net (with_net (upstream_of 404 (JsonParsed sample_posts))
                               sample_world) (relay_url RelayPosts))).
  { apply non_success_status. cbn. lia. }
  split; [exact H | apply (relay_failure_is_fixed_500 RelayPosts _ H)].
Defined.

(** ** The root route *)

(** C3 as stated fails on [index.js]: its root handler does not answer
    with the long greeting. *)
Lemma index_root_is_not_the_long_greeting :
  ~ responds IndexJs.root_handler sample_world
      {| resp_status := 200;
         resp_body := BodyText "Hello, World! The server is running." |}.
Proof.
  intros (c & Hrun & Hsent). cbn in Hrun. injection Hrun as <-.
  discriminate Hsent.
Qed.

(** C3, amended: on every invocation the root handler of the full server
    responds 200 with the text "Hello, World! The server is running.", and
    the root handler of the plain [index.js] responds 200 with the text
    "Hello, World!". *)
Theorem root_greetings w :
  responds root_handler w
    {| resp_status := 200;
       resp_body := BodyText "Hello, World! The server is running." |} /\
  responds IndexJs.root_handler w
    {| resp_status := 200; resp_body := BodyText "Hello, World!" |}.
Proof. split; [apply root_responds | apply index_root_responds]. Qed.

(** ** The environment route *)

Lemma env_responds w :
  responds env_handler w
    {| resp_status := 200;
       resp_body :=
         env_body (or_else (env w !! "testkey1") "NOT FOUND")
                  (or_else (env w !! "testkey2") "NOT FOUND")
                  (or_else (env w !! "testkey3") "NOT FOUND")
                  (or_else (env w !! "testkey4") "NOT FOUND")
                  (or_else (env w !! "KUBERNETES_SERVICE_HOST") "NOT FOUND")
    |}.
Proof. run_handler. Qed.

Lemma in_relevant_names name :
  name ∈ relevant_names ->
  name = "testkey1" \/ name = "testkey2" \/ name = "testkey3" \/
  name = "testkey4" \/ name = "KUBERNETES_SERVICE_HOST".
Proof. unfold relevant_names. rewrite !elem_of_cons, elem_of_nil. tauto. Qed.

(** C4: when none of the five names is set, the [/env] handler responds 200
    and its [variables] record maps each of them to "NOT FOUND". *)
Theorem env_nothing_set w :
  (forall name, name ∈ relevant_names -> env w !! name = None) ->
  responds env_handler w
    {| resp_status := 200;
       resp_body := env_body "NOT FOUND" "NOT FOUND" "NOT FOUND" "NOT FOUND"
                             "NOT FOUND" |}.
Proof.
  intros H. pose proof (env_responds w) as Hr.
  rewrite !H in Hr by (apply list_elem_of_In; cbn; tauto). exact Hr.
Qed.

Lemma env_nothing_set_witness :
  (forall name, name ∈ relevant_names -> env sample_world !! name = None) /\
  responds env_handler sample_world
    {| resp_status := 200;
       resp_body := env_body "NOT FOUND" "NOT FOUND" "NOT FOUND" "NOT FOUND"
                             "NOT FOUND" |}.
Proof.
  assert (H : forall name,
             name ∈ relevant_names -> env sample_world !! name = None).
  { intros name _. reflexivity. }
  split; [exact H | apply (env_nothing_set sample_world H)].
Defined.

(** C5: with [testkey1] set to "foo" and the other four names unset, the
    [/env] handler responds 200 and its [variables] record maps [testkey1]
    to "foo" and each of the other four to "NOT FOUND". *)
Theorem env_testkey1_foo w :
  env w !! "testkey1" = Some "foo" ->
  env w !! "testkey2" = None ->
  env w !! "testkey3" = None ->
  env w !! "testkey4" = None ->
  env w !! "KUBERNETES_SERVICE_HOST" = None ->
  responds env_handler w
    {| resp_status := 200;
       resp_body := env_body "foo" "NOT FOUND" "NOT FOUND" "NOT FOUND"
                             "NOT FOUND" |}.
Proof.
  intros H1 H2 H3 H4 H5. pose proof (env_responds w) as Hr.
  rewrite H1, H2, H3, H4, H5 in Hr. exact Hr.
Qed.

Lemma env_testkey1_foo_witness :
  responds env_handler (with_env {["testkey1" := "foo"]} sample_world)
    {| resp_status := 200;
       resp_body := env_body "foo" "NOT FOUND" "NOT FOUND" "NOT FOUND"
                             "NOT FOUND" |}.
Proof.
  apply (env_testkey1_foo (with_env {["testkey1" := "foo"]} sample_world));
    vm_compute; reflexivity.
Defined.

(** C9: a relevant variable that is set to the empty string is reported as
    "NOT FOUND", and the response is the one given when that variable is
    unset: [||] replaces every falsy value, not only a missing one. *)
Theorem env_empty_string_is_not_found w name :
  name ∈ relevant_names ->
  env w !! name = Some "" ->
  exists message variables,
    responds env_handler w
      {| resp_status := 200;
         resp_body := BodyJson (JObject [("message", message);
                                         ("variables", variables)]) |} /\
    field name variables = Some (JString "NOT FOUND") /\
    response_of env_handler w =
    response_of env_handler (with_env (delete name (env w)) w).
Proof.
  intros Hin Hempty. do 2 eexists. split; [apply env_responds |].
  apply in_relevant_names in Hin.
  destruct Hin as [-> | [-> | [-> | [-> | ->]]]];
    (split; [cbn; rewrite Hempty; reflexivity |]);
    unfold response_of; cbn;
    rewrite lookup_delete_eq, !lookup_delete_ne, Hempty by done;
    reflexivity.
Qed.

Lemma env_empty_string_is_not_found_witness :
  let w := with_env {["testkey3" := ""]} sample_world in
  exists message variables,
    responds env_handler w
      {| resp_status := 200;
         resp_body := BodyJson (JObject [("message", message);
                                         ("variables", variables)]) |} /\
    field "testkey3" variables = Some (JString "NOT FOUND") /\
    response_of env_handler w =
    response_of env_handler (with_env (delete "testkey3" (env w)) w).
Proof.
  apply (env_empty_string_is_not_found
           (with_env {["testkey3" := ""]} sample_world) "testkey3").
  - apply list_elem_of_In. cbn. tauto.
  - vm_compute. reflexivity.
Defined.

(** ** The health route, and all handlers together *)

Lemma health_responds w :
  responds health_handler w
    {| resp_status := 200;
       resp_body := health_body (toISOString (clock w (clock_reads w))) |}.
Proof. run_handler. Qed.

Lemma handler_responds r w : responds (handler r) w (expected_response r w).
Proof.
  destruct r; cbn [handler expected_response].
  - apply root_responds.
  - apply health_responds.
  - apply env_responds.
  - apply posts_responds.
  - apply random_fact_responds.
Qed.

(** The handlers leave the environment, the network and the spinner
    alone. *)
Lemma handler_frame r w :
  env (world_after (handler r) w) = env w /\
  net (world_after (handler r) w) = net w /\
  spinnerIndex (world_after (handler r) w) = spinnerIndex w.
Proof.
  unfold world_after.
  destruct r; cbn; auto; run_relay; auto.
Qed.

Lemma tick_runs w x :
  exists w',
    spinner_tick {| world := w; res := x |} =
      (Returned tt, {| world := w'; res := x |}) /\
    spinnerIndex w' = ((spinnerIndex w + 1) mod 4)%nat.
Proof. eexists. split; cbn; reflexivity. Qed.

Lemma step_request s r :
  alive s = true ->
  step s (Request r) =
    {| sworld := world_after (handler r) (sworld s);
       replies := replies s ++ [(r, expected_response r (sworld s))];
       alive := true |}.
Proof.
  intros Halive. destruct (handler_responds r (sworld s)) as (c & Hrun & Hsent).
  unfold step, world_after, reply_of. rewrite Halive, Hrun, Hsent.
  reflexivity.
Qed.

Lemma step_tick s :
  alive s = true ->
  alive (step s Tick) = true /\
  replies (step s Tick) = replies s /\
  spinnerIndex (sworld (step s Tick)) =
    ((spinnerIndex (sworld s) + 1) mod 4)%nat.
Proof.
  intros Halive. destruct (tick_runs (sworld s) fresh_res) as (w' & Hrun & Hi).
  unfold step. rewrite Halive, Hrun. auto.
Qed.

Lemma run_cons s ev evs : run s (ev :: evs) = run (step s ev) evs.
Proof. reflexivity. Qed.

(** What holds of the server across any sequence of events. *)
Lemma run_invariant evs : forall s,
  alive s = true ->
  alive (run s evs) = true /\
  map fst (replies (run s evs)) = map fst (replies s) ++ requests_of evs /\
  (spinnerIndex (sworld (run s evs)) mod 4 =
     (spinnerIndex (sworld s) + ticks_of evs) mod 4)%nat /\
  ((spinnerIndex (sworld s) < 4)%nat ->
   (spinnerIndex (sworld (run s evs)) < 4)%nat).
Proof.
  induction evs as [| ev evs IH]; intros s Halive.
  - cbn. rewrite app_nil_r, Nat.add_0_r. auto.
  - rewrite run_cons. destruct ev as [r |].
    + rewrite (step_request s r Halive).
      match goal with
      | |- context [run ?s' evs] =>
          destruct (IH s' eq_refl) as (IHa & IHr & IHi & IHb)
      end.
      destruct (handler_frame r (sworld s)) as (_ & _ & Hspin).
      cbn [sworld replies] in *. rewrite Hspin in *.
      split; [exact IHa |]. split; [| split; [exact IHi | exact IHb]].
      rewrite IHr, map_app, <- app_assoc. reflexivity.
    + destruct (step_tick s Halive) as (Ha & Hr & Hi).
      destruct (IH _ Ha) as (IHa & IHr & IHi & IHb).
      split; [exact IHa |]. split; [rewrite IHr, Hr; reflexivity |].
      split.
      * rewrite IHi, Hi. cbn [ticks_of List.filter is_tick length].
        fold (ticks_of evs).
        rewrite Nat.Div0.add_mod_idemp_l. f_equal. lia.
      * intros _. apply IHb. rewrite Hi.
        apply Nat.mod_upper_bound. lia.
Qed.

Lemma boot_alive w : alive (boot w) = true.
Proof. reflexivity. Qed.


(** C10: the spinner index starts at 0; after any sequence of ticks and
    requests it is the number of ticks so far modulo 4, hence one of 0, 1,
    2, 3 and a valid index into the four spinner characters; one more tick
    advances it by 1 modulo 4. *)
Theorem spinner_index_in_bounds w evs :
  let s := run (boot w) evs in
  spinnerIndex (sworld (boot w)) = 0%nat /\
  spinnerIndex (sworld s) = (ticks_of evs mod 4)%nat /\
  (spinnerIndex (sworld s) < length spinnerChars)%nat /\
  is_Some (spinnerChars !! spinnerIndex (sworld s)) /\
  spinnerIndex (sworld (step s Tick)) =
    ((spinnerIndex (sworld s) + 1) mod length spinnerChars)%nat.
Proof.
  cbn zeta.
  destruct (run_invariant evs (boot w) (boot_alive w)) as (Ha & _ & Hi & Hb).
  assert (Hlt : (spinnerIndex (sworld (run (boot w) evs)) < 4)%nat)
    by (apply Hb; cbn; lia).
  split; [reflexivity |]. split; [| split; [exact Hlt | split]].
  - rewrite <- (Nat.mod_small _ 4 Hlt), Hi. reflexivity.
  - apply lookup_lt_is_Some_2. exact Hlt.
  - apply (step_tick _ Ha).
Qed.

(** C8: on any route, two invocations under the same environment and the
    same upstream behaviour, such as an invocation and its repetition, give
    responses of the same status and the same body shape; the bodies are
    equal once the [timestamp] field is left out, and on every route but
    [/health] the responses are equal. *)
Theorem repeated_request_same_response r w1 w2 :
  env w1 = env w2 ->
  (forall url, net w1 url = net w2 url) ->
  exists resp1 resp2,
    responds (handler r) w1 resp1 /\
    responds (handler r) w2 resp2 /\
    resp_status resp1 = resp_status resp2 /\
    body_shape (resp_body resp1) = body_shape (resp_body resp2) /\
    without_timestamp (resp_body resp1) =
      without_timestamp (resp_body resp2) /\
    (r <> Health -> resp1 = resp2) /\
    env (world_after (handler r) w1) = env w1 /\
    net (world_after (handler r) w1) = net w1.
Proof.
  intros Henv Hnet.
  exists (expected_response r w1), (expected_response r w2).
  split; [apply handler_responds |]. split; [apply handler_responds |].
  destruct (handler_frame r w1) as (Hfe & Hfn & _).
  assert (Hsame : r <> Health ->
                  expected_response r w1 = expected_response r w2).
  { intros Hr. destruct r; cbn [expected_response]; try congruence;
      rewrite Hnet; reflexivity. }
  assert (Hd : r = Health \/ r <> Health)
    by (destruct r; (left; reflexivity) || (right; discriminate)).
  destruct Hd as [-> | Hr].
  - repeat split; auto.
  - rewrite (Hsame Hr). repeat split; auto.
Qed.

Lemma repeated_request_same_response_witness :
  let w1 := sample_world in
  let w2 := world_after (handler Health) sample_world in
  exists resp1 resp2,
    responds (handler Health) w1 resp1 /\
    responds (handler Health) w2 resp2 /\
    resp_status resp1 = resp_status resp2 /\
    body_shape (resp_body resp1) = body_shape (resp_body resp2) /\
    without_timestamp (resp_body resp1) =
      without_timestamp (resp_body resp2) /\
    (Health <> Health -> resp1 = resp2) /\
    env (world_after (handler Health) w1) = env w1 /\
    net (world_after (handler Health) w1) = net w1.
Proof.
  apply (repeated_request_same_response Health sample_world
           (world_after (handler Health) sample_world)).
  - reflexivity.
  - intros url. reflexivity.
Defined.

(** ** Decimal fields *)

Lemma digit_cases d :
  0 <= d < 10 ->
  d = 0 \/ d = 1 \/ d = 2 \/ d = 3 \/ d = 4 \/ d = 5 \/ d = 6 \/ d = 7 \/
  d = 8 \/ d = 9.
Proof. lia. Qed.

Lemma digit_of_digit_char d : 0 <= d < 10 -> digit_of (digit_char d) = Some d.
Proof.
  intros H. apply digit_cases in H.
  repeat (destruct H as [-> | H]; [reflexivity |]). subst d. reflexivity.
Qed.

Lemma digit_char_not_sign d :
  0 <= d < 10 -> digit_char d <> "+"%char /\ digit_char d <> "-"%char.
Proof.
  intros H. apply digit_cases in H.
  repeat (destruct H as [-> | H]; [split; discriminate |]).
  subst d. split; discriminate.
Qed.

Lemma append_cons c s rest : String c s +:+ rest = String c (s +:+ rest).
Proof. reflexivity. Qed.

Lemma append_nil_l s : "" +:+ s = s.
Proof. reflexivity. Qed.

Lemma pow10_pos n : 0 < 10 ^ Z.of_nat n.
Proof. apply Z.pow_pos_nonneg; lia. Qed.

Lemma pow10_succ n : 10 ^ Z.of_nat (S n) = 10 ^ Z.of_nat n * 10.
Proof. rewrite Nat2Z.inj_succ, Z.pow_succ_r by lia. ring. Qed.

(** Reading back [n] printed digits gives the number modulo [10 ^ n]. *)
Lemma read_digits_digits n : forall x acc rest,
  read_digits n acc (digits n x +:+ rest) =
    Some (acc * 10 ^ Z.of_nat n + x mod 10 ^ Z.of_nat n, rest).
Proof.
  induction n as [| n IH]; intros x acc rest.
  - cbn. rewrite Z.mod_1_r. do 2 f_equal. lia.
  - cbn [digits]. rewrite append_cons. cbn [read_digits].
    rewrite digit_of_digit_char by (apply Z.mod_pos_bound; lia).
    rewrite IH, pow10_succ.
    rewrite (Z.rem_mul_r x (10 ^ Z.of_nat n) 10)
      by (pose proof (pow10_pos n); lia).
    do 2 f_equal. ring.
Qed.

Lemma read_field n x rest :
  0 <= x < 10 ^ Z.of_nat n ->
  read_digits n 0 (digits n x +:+ rest) = Some (x, rest).
Proof.
  intros H. rewrite read_digits_digits, Z.mod_small by exact H.
  reflexivity.
Qed.

Lemma expect_here c rest : expect c (String c rest) = Some rest.
Proof. cbn. rewrite decide_True by reflexivity. reflexivity. Qed.

Lemma read_year_string y rest :
  -999999 <= y <= 999999 ->
  read_year (year_string y +:+ rest) = Some (y, rest).
Proof.
  intros Hy. unfold year_string.
  destruct ((0 <=? y) && (y <=? 9999)) eqn:Hshort.
  - apply andb_true_iff in Hshort as [H0 H9]. apply Z.leb_le in H0, H9.
    rewrite <- (read_field 4 y rest) by (cbn; lia).
    cbn [digits]. rewrite append_cons. cbn [read_year].
    destruct (digit_char_not_sign ((y / 10 ^ Z.of_nat 3) mod 10))
      as [Hplus Hminus]; [apply Z.mod_pos_bound; lia |].
    rewrite !decide_False by assumption. reflexivity.
  - apply andb_false_iff in Hshort.
    destruct (y <? 0) eqn:Hneg.
    + apply Z.ltb_lt in Hneg. rewrite !append_cons, append_nil_l.
      cbn [read_year].
      rewrite decide_False by discriminate.
      rewrite decide_True by reflexivity.
      rewrite read_field by (cbn; lia). cbn.
      destruct (Z.abs y =? 0) eqn:Hz; [apply Z.eqb_eq in Hz; lia |].
      do 2 f_equal. lia.
    + apply Z.ltb_ge in Hneg. rewrite !append_cons, append_nil_l.
      cbn [read_year].
      rewrite decide_True by reflexivity.
      rewrite read_field by (cbn; lia). do 2 f_equal. lia.
Qed.

(** ** The calendar *)

Lemma check_range_spec p n : forall from,
  check_range n from p = true ->
  forall i, from <= i < from + Z.of_nat n -> p i = true.
Proof.
  induction n as [| n IH]; intros from Hc i Hi; [lia |].
  cbn [check_range] in Hc. apply andb_true_iff in Hc as [Hhere Hrest].
  destruct (Z.eq_dec i from) as [-> | Hne]; [exact Hhere |].
  apply (IH (from + 1) Hrest). lia.
Qed.

(** Every day of a year, checked one by one. *)
Lemma year_checked : check_range 366 0 month_day_ok = true.
Proof. vm_compute. reflexivity. Qed.

Lemma month_day_spec doy m d :
  0 <= doy <= 365 ->
  month_day doy = (m, d) ->
  1 <= m <= 12 /\ 1 <= d <= month_length (doy =? 365) m /\
  day_of_year m d = doy /\ (doy = 365 -> m = 2).
Proof.
  intros Hdoy Hmd.
  assert (Hok : month_day_ok doy = true)
    by (apply (check_range_spec month_day_ok _ 0 year_checked); lia).
  unfold month_day_ok in Hok. rewrite Hmd in Hok.
  rewrite !andb_true_iff, !Z.leb_le, Z.eqb_eq in Hok.
  destruct Hok as (((((H1 & H2) & H3) & H4) & H5) & H6).
  repeat split; try assumption.
  intros ->. cbn in H6. apply Z.eqb_eq, H6.
Qed.

(** The year of the cycle a day falls in; the 366th day of that year
    exists only before a leap March. *)
Lemma year_of_cycle_spec doe :
  0 <= doe < daysPerCycle ->
  0 <= year_of_cycle doe <= 399 /\
  0 <= doe - days_before_year (year_of_cycle doe) <= 365 /\
  (doe - days_before_year (year_of_cycle doe) = 365 ->
   InLeapYear (year_of_cycle doe + 1) = true).
Proof.
  intros Hdoe.
  assert (H : 0 <= year_of_cycle doe <= 399 /\
              0 <= doe - days_before_year (year_of_cycle doe) <= 365 /\
              (doe - days_before_year (year_of_cycle doe) = 365 ->
               (year_of_cycle doe + 1) mod 4 = 0 /\
               ((year_of_cycle doe + 1) mod 100 <> 0 \/
                (year_of_cycle doe + 1) mod 400 = 0))).
  { unfold year_of_cycle, days_before_year, daysPerCycle in *.
    Z.div_mod_to_equations. lia. }
  destruct H as (Hy & Hd & Hleap). split; [exact Hy |]. split; [exact Hd |].
  intros H365. destruct (Hleap H365) as [H4 H100]. unfold InLeapYear.
  apply andb_true_iff. split; [apply Z.eqb_eq, H4 |].
  apply orb_true_iff. destruct H100 as [H100 | H400].
  - left. apply negb_true_iff, Z.eqb_neq, H100.
  - right. apply Z.eqb_eq, H400.
Qed.

Lemma month_length_leap b m : month_length false m <= month_length b m.
Proof.
  unfold month_length. destruct (m =? 2); [destruct b; lia | lia].
Qed.

Lemma cycle_ok_spec doe yoe m d :
  0 <= doe < daysPerCycle ->
  split_cycle doe = (yoe, m, d) ->
  0 <= yoe <= 399 /\ 1 <= m <= 12 /\
  1 <= d <= DaysInMonth (yoe + year_carry m) m /\
  join_cycle yoe m d = doe.
Proof.
  intros Hdoe. unfold split_cycle.
  destruct (month_day (doe - days_before_year (year_of_cycle doe)))
    as [m' d'] eqn:Hmd.
  intros [= <- <- <-].
  destruct (year_of_cycle_spec doe Hdoe) as (Hy & Hdoy & Hleap).
  destruct (month_day_spec _ _ _ Hdoy Hmd) as (Hm & Hd & Hjoin & Hfeb).
  split; [exact Hy |]. split; [exact Hm |]. split.
  - unfold DaysInMonth.
    destruct (doe - days_before_year (year_of_cycle doe) =? 365) eqn:H365.
    + apply Z.eqb_eq in H365. rewrite (Hfeb H365) in *.
      cbn [year_carry Z.leb Z.compare Pos.compare Pos.compare_cont].
      rewrite (Hleap H365). exact Hd.
    + pose proof (month_length_leap
                    (InLeapYear (year_of_cycle doe + year_carry m')) m').
      lia.
  - unfold join_cycle. rewrite Hjoin. lia.
Qed.

Lemma mod_add_multiple a e k c n :
  c <> 0 -> n = k * c -> (a + e * n) mod c = a mod c.
Proof. intros Hc ->. rewrite Z.mul_assoc. apply Z.mod_add, Hc. Qed.

(** The leap years repeat with the 400-year cycle. *)
Lemma InLeapYear_cycle y e : InLeapYear (y + e * 400) = InLeapYear y.
Proof.
  unfold InLeapYear.
  rewrite (mod_add_multiple y e 100 4), (mod_add_multiple y e 4 100),
    (mod_add_multiple y e 1 400) by lia.
  reflexivity.
Qed.

Lemma DaysInMonth_cycle y e m : DaysInMonth (y + e * 400) m = DaysInMonth y m.
Proof. unfold DaysInMonth. rewrite InLeapYear_cycle. reflexivity. Qed.

(** The date of a day is a date of the calendar, and the day is recovered
    from it. *)
Lemma civil_from_days_spec z y m d :
  civil_from_days z = (y, m, d) ->
  1 <= m <= 12 /\ 1 <= d <= DaysInMonth y m /\
  days_from_civil y m d = z /\
  (z + epochShift) / daysPerCycle * 400 <= y <=
    (z + epochShift) / daysPerCycle * 400 + 400.
Proof.
  unfold civil_from_days.
  destruct (split_cycle ((z + epochShift) mod daysPerCycle))
    as [[yoe m'] d'] eqn:Hsplit.
  intros [= <- <- <-].
  apply cycle_ok_spec in Hsplit
    as (Hyoe & Hm & Hd & Hjoin);
    [| apply Z.mod_pos_bound; unfold daysPerCycle; lia].
  set (era := (z + epochShift) / daysPerCycle) in *.
  assert (Hcarry : 0 <= year_carry m' <= 1)
    by (unfold year_carry; destruct (m' <=? 2); lia).
  split; [exact Hm |]. split.
  - replace (yoe + era * 400 + year_carry m')
      with (yoe + year_carry m' + era * 400) by ring.
    rewrite DaysInMonth_cycle. exact Hd.
  - split; [| lia].
    unfold days_from_civil.
    replace (yoe + era * 400 + year_carry m' - year_carry m')
      with (yoe + era * 400) by ring.
    rewrite Z.div_add, Z.mod_add, Z.div_small, Z.mod_small, Hjoin by lia.
    pose proof (Z.div_mod (z + epochShift) daysPerCycle) as Hdm.
    fold era in Hdm. unfold daysPerCycle in *. lia.
Qed.

(** The time within the day splits into hours, minutes, seconds and
    milliseconds. *)
Lemma time_fields t :
  0 <= HourFromTime t <= 23 /\ 0 <= MinFromTime t <= 59 /\
  0 <= SecFromTime t <= 59 /\ 0 <= msFromTime t <= 999 /\
  Day t * msPerDay + HourFromTime t * msPerHour +
    MinFromTime t * msPerMinute + SecFromTime t * msPerSecond +
    msFromTime t = t.
Proof.
  unfold HourFromTime, MinFromTime, SecFromTime, msFromTime, Day,
    msPerDay, msPerHour, msPerMinute, msPerSecond.
  Z.div_mod_to_equations. lia.
Qed.

Lemma in_range_ok lo x hi : lo <= x <= hi -> in_range lo x hi = Some tt.
Proof.
  intros [Hlo Hhi]. unfold in_range.
  apply Z.leb_le in Hlo, Hhi. rewrite Hlo, Hhi. reflexivity.
Qed.

Lemma DaysInMonth_le_31 y m : DaysInMonth y m <= 31.
Proof.
  unfold DaysInMonth, month_length.
  repeat match goal with |- context [if ?b then _ else _] => destruct b end;
    lia.
Qed.

Lemma expect_sep c rest : expect c (String c "" +:+ rest) = Some rest.
Proof. apply expect_here. Qed.

Ltac parse_step :=
  first [ rewrite expect_sep
        | rewrite expect_here
        | rewrite read_field by (cbn; lia)
        | rewrite in_range_ok by lia ];
  cbn [mbind option_bind].

Lemma Day_range t : valid_time t -> -100000000 <= Day t <= 100000000.
Proof.
  unfold valid_time, maxTime, Day, msPerDay. intros H.
  Z.div_mod_to_equations. lia.
Qed.

(** The strict reader reads back the time value that [toISOString]
    printed. *)
Lemma Date_parse_toISOString t :
  valid_time t -> Date_parse (toISOString t) = Some t.
Proof.
  intros Hvalid. pose proof (Day_range t Hvalid) as Hday.
  unfold toISOString, YearFromTime, MonthFromTime, DateFromTime.
  destruct (civil_from_days (Day t)) as [[y m] d] eqn:Hcivil. cbn [fst snd].
  apply civil_from_days_spec in Hcivil as (Hm & Hd & Hdays & Hy).
  pose proof (DaysInMonth_le_31 y m) as H31.
  destruct (time_fields t) as (Hh & Hmi & Hs & Hms & Ht).
  assert (Hyear : -999999 <= y <= 999999).
  { revert Hy. unfold epochShift, daysPerCycle.
    Z.div_mod_to_equations. lia. }
  unfold Date_parse.
  rewrite read_year_string by exact Hyear. cbn [mbind option_bind].
  repeat parse_step.
  rewrite decide_True by reflexivity. rewrite Hdays, Ht.
  destruct Hvalid as [Hlo Hhi]. apply Z.leb_le in Hlo, Hhi.
  rewrite Hlo, Hhi. reflexivity.
Qed.

(** Different time values print as different strings. *)
Lemma toISOString_inj t1 t2 :
  valid_time t1 -> valid_time t2 ->
  toISOString t1 = toISOString t2 -> t1 = t2.
Proof.
  intros H1 H2 Heq. apply Date_parse_toISOString in H1, H2.
  rewrite Heq in H1. congruence.
Qed.

Example iso_epoch : toISOString 0 = "1970-01-01T00:00:00.000Z".
Proof. vm_compute. reflexivity. Qed.

Example iso_2023 : toISOString 1700000000123 = "2023-11-14T22:13:20.123Z".
Proof. vm_compute. reflexivity. Qed.

Example iso_leap_day : toISOString 951782400000 = "2000-02-29T00:00:00.000Z".
Proof. vm_compute. reflexivity. Qed.

Example iso_before_epoch : toISOString (-1) = "1969-12-31T23:59:59.999Z".
Proof. vm_compute. reflexivity. Qed.

Example iso_year_zero :
  toISOString (-62167219200000) = "0000-01-01T00:00:00.000Z".
Proof. vm_compute. reflexivity. Qed.

Example iso_latest : toISOString maxTime = "+275760-09-13T00:00:00.000Z".
Proof. vm_compute. reflexivity. Qed.

Example iso_earliest : toISOString (- maxTime) = "-271821-04-20T00:00:00.000Z".
Proof. vm_compute. reflexivity. Qed.

(** C6: the [/health] handler responds 200 with [status] "ok" and, as
    [timestamp], the ISO rendering of the clock reading taken at the call;
    that string parses back to the reading, so it is a valid date-time, and
    two calls whose readings differ carry different timestamps. *)
Theorem health_fresh_timestamp w1 w2 :
  let t1 := clock w1 (clock_reads w1) in
  let t2 := clock w2 (clock_reads w2) in
  let response t :=
    {| resp_status := 200;
       resp_body := BodyJson (JObject
         [("status", JString "ok");
          ("message", JString "Service is healthy");
          ("timestamp", JString (toISOString t))]) |} in
  valid_time t1 -> valid_time t2 ->
  responds health_handler w1 (response t1) /\
  responds health_handler w2 (response t2) /\
  Date_parse (toISOString t1) = Some t1 /\
  (t1 <> t2 -> toISOString t1 <> toISOString t2).
Proof.
  intros t1 t2 response H1 H2.
  split; [apply health_responds |]. split; [apply health_responds |].
  split; [apply Date_parse_toISOString, H1 |].
  intros Hne Heq. apply Hne. apply (toISOString_inj t1 t2 H1 H2 Heq).
Qed.

Lemma health_fresh_timestamp_witness :
  let w1 := sample_world in
  let w2 := world_after health_handler sample_world in
  responds health_handler w1
    {| resp_status := 200;
       resp_body := BodyJson (JObject
         [("status", JString "ok");
          ("message", JString "Service is healthy");
          ("timestamp", JString "2023-11-14T22:13:20.000Z")]) |} /\
  responds health_handler w2
    {| resp_status := 200;
       resp_body := BodyJson (JObject
         [("status", JString "ok");
          ("message", JString "Service is healthy");
          ("timestamp", JString "2023-11-14T22:13:20.500Z")]) |} /\
  Date_parse "2023-11-14T22:13:20.000Z" = Some 1700000000000 /\
  (1700000000000 <> 1700000000500 ->
   toISOString 1700000000000 <> toISOString 1700000000500).
Proof.
  apply (health_fresh_timestamp sample_world
           (world_after health_handler sample_world));
    unfold valid_time, maxTime; cbn; lia.
Defined.

(** ** What the handlers leave behind *)

Lemma handler_world r w : world_after (handler r) w = expected_world r w.
Proof.
  unfold world_after, expected_world, error_lines, relay_error_lines,
    caught_message.
  destruct w, r; cbn; rewrite ?app_nil_r; try reflexivity;
    run_relay; rewrite ?app_nil_r; reflexivity.
Qed.

Lemma observed_handler r w :
  observed (handler r) w =
    (Some (expected_response r w), stdout w ++ log_lines r w,
     stderr w ++ error_lines r w).
Proof.
  pose proof (handler_world r w) as Hw. unfold world_after in Hw.
  destruct (handler_responds r w) as (c & Hrun & Hsent).
  unfold observed. rewrite Hrun in *. cbn [snd] in *.
  rewrite Hsent, Hw. reflexivity.
Qed.

Lemma relay_is_handler k : relay_handler k = handler (relay_route k).
Proof. destruct k; reflexivity. Qed.

Lemma caught_message_none o :
  caught_message o = None <-> exists v, serialisable_success o v.
Proof.
  split.
  - destruct o as [r | e]; cbn; [| discriminate].
    destruct (ok r) eqn:Hok; [| discriminate].
    destruct (json_result r) as [v | e] eqn:Hbody; [| discriminate].
    destruct (stack_room r) eqn:Hroom; [| discriminate].
    intros _. exists v, r. apply ok_true in Hok. auto.
  - intros (v & r & -> & Hstatus & Hbody & Hroom). cbn.
    apply ok_true in Hstatus. rewrite Hstatus, Hbody, Hroom. reflexivity.
Qed.

(** ** The environment route, further *)

(** X1: the response of [/env] depends on the five names only; no other
    variable of the environment reaches it. *)
Theorem env_only_relevant_names w1 w2 :
  (forall name, name ∈ relevant_names -> env w1 !! name = env w2 !! name) ->
  response_of env_handler w1 = response_of env_handler w2.
Proof.
  intros H. unfold response_of. cbn.
  rewrite !H by (apply list_elem_of_In; cbn; tauto). reflexivity.
Qed.

Lemma env_only_relevant_names_witness :
  response_of env_handler
    (with_env {["DATABASE_PASSWORD" := "hunter2"]} sample_world) =
  response_of env_handler sample_world.
Proof.
  apply (env_only_relevant_names
           (with_env {["DATABASE_PASSWORD" := "hunter2"]} sample_world)
           sample_world).
  intros name Hin. apply in_relevant_names in Hin.
  destruct Hin as [-> | [-> | [-> | [-> | ->]]]]; vm_compute; reflexivity.
Defined.

(** X2: a relevant variable set to a non-empty value is reported with that
    value, unchanged. *)
Theorem env_reports_set_value w name v :
  name ∈ relevant_names ->
  env w !! name = Some v ->
  v <> "" ->
  exists message variables,
    responds env_handler w
      {| resp_status := 200;
         resp_body := BodyJson (JObject [("message", message);
                                         ("variables", variables)]) |} /\
    field name variables = Some (JString v).
Proof.
  intros Hin Hv Hne. do 2 eexists. split; [apply env_responds |].
  apply in_relevant_names in Hin.
  destruct Hin as [-> | [-> | [-> | [-> | ->]]]];
    cbn; rewrite Hv; cbn; rewrite decide_False by exact Hne; reflexivity.
Qed.

Lemma env_reports_set_value_witness :
  exists message variables,
    responds env_handler
      (with_env {["KUBERNETES_SERVICE_HOST" := "10.0.0.1"]} sample_world)
      {| resp_status := 200;
         resp_body := BodyJson (JObject [("message", message);
                                         ("variables", variables)]) |} /\
    field "KUBERNETES_SERVICE_HOST" variables = Some (JString "10.0.0.1").
Proof.
  apply (env_reports_set_value
           (with_env {["KUBERNETES_SERVICE_HOST" := "10.0.0.1"]} sample_world)
           "KUBERNETES_SERVICE_HOST" "10.0.0.1").
  - apply list_elem_of_In. cbn. tauto.
  - vm_compute. reflexivity.
  - discriminate.
Defined.

(** X3: a relevant variable whose value is the text "NOT FOUND" gets the
    response of an unset one: the sentinel cannot be told from the value. *)
Theorem env_sentinel_value_is_ambiguous w name :
  name ∈ relevant_names ->
  env w !! name = Some "NOT FOUND" ->
  response_of env_handler w =
  response_of env_handler (with_env (delete name (env w)) w).
Proof.
  intros Hin Hv. apply in_relevant_names in Hin.
  destruct Hin as [-> | [-> | [-> | [-> | ->]]]];
    unfold response_of; cbn;
    rewrite lookup_delete_eq, !lookup_delete_ne, Hv by done;
    reflexivity.
Qed.

Lemma env_sentinel_value_is_ambiguous_witness :
  let w := with_env {["testkey2" := "NOT FOUND"]} sample_world in
  response_of env_handler w =
  response_of env_handler (with_env (delete "testkey2" (env w)) w).
Proof.
  apply (env_sentinel_value_is_ambiguous
           (with_env {["testkey2" := "NOT FOUND"]} sample_world) "testkey2").
  - apply list_elem_of_In. cbn. tauto.
  - vm_compute. reflexivity.
Defined.

(** ** The relays, further *)

Lemma relay_status_500 o failure :
  resp_status (relay_response o failure) = 500 <-> caught_message o <> None.
Proof.
  unfold relay_response, caught_message.
  destruct o as [r | e]; [| cbn; split; [discriminate | reflexivity]].
  destruct (ok r); [| cbn; split; [discriminate | reflexivity]].
  destruct (json_result r); [| cbn; split; [discriminate | reflexivity]].
  destruct (stack_room r); cbn; split; try discriminate; try reflexivity.
  intros H. contradiction H. reflexivity.
Qed.

(** X4: a relay writes to the error stream exactly when it answers 500,
    that is when its upstream call fails or the parsed body is nested too
    deep to be serialised, and then one line: its own prefix, a space and
    the message of the error it caught, which for a status outside 200-299
    names that status and for a body too deep is that of the stack
    overflow.  When it answers 200 the error stream is left as it was. *)
Theorem relay_error_log k w :
  stderr (world_after (relay_handler k) w) =
    stderr w ++
    match caught_message (net w (relay_url k)) with
    | Some message => [relay_log_prefix k +:+ " " +:+ message +:+ nl]
    | None => []
    end /\
  (caught_message (net w (relay_url k)) = None <->
   exists v, serialisable_success (net w (relay_url k)) v) /\
  (forall resp,
     responds (relay_handler k) w resp ->
     (resp_status resp = 500 <->
      caught_message (net w (relay_url k)) <> None)) /\
  (forall r, net w (relay_url k) = Resolved r ->
             ~ (200 <= status r <= 299) ->
             caught_message (net w (relay_url k)) =
               Some ("External API responded with status: " +:+
                     pretty (status r))) /\
  (forall v, unserialisable_success (net w (relay_url k)) v ->
             caught_message (net w (relay_url k)) =
               Some "Maximum call stack size exceeded").
Proof.
  split; [| split; [| split; [| split]]].
  - rewrite relay_is_handler, handler_world. destruct k; reflexivity.
  - apply caught_message_none.
  - intros resp Hresp.
    rewrite (responds_unique _ _ _ _ Hresp (relay_responds k w)).
    apply relay_status_500.
  - intros r -> Hstatus. cbn. apply ok_false in Hstatus.
    rewrite Hstatus. reflexivity.
  - intros v (r & -> & Hstatus & Hbody & Hroom). cbn.
    apply ok_true in Hstatus. rewrite Hstatus, Hbody, Hroom. reflexivity.
Qed.

(** X5: when the status is outside 200-299 the body of the upstream response
    is never read: the response of the relay and both output streams are
    the same whatever that body is. *)
Theorem relay_skips_body_on_bad_status k w code b1 b2 :
  ~ (200 <= code <= 299) ->
  observed (relay_handler k) (with_net (upstream_of code b1) w) =
  observed (relay_handler k) (with_net (upstream_of code b2) w).
Proof.
  intros Hcode. rewrite relay_is_handler, !observed_handler.
  assert (Hok : forall b, ok {| status := code; json_result := b;
                                stack_room := true |} = false)
    by (intros b; apply ok_false; exact Hcode).
  destruct k; cbn; unfold relay_error_lines, upstream_of; cbn;
    rewrite !Hok; reflexivity.
Qed.

Lemma relay_skips_body_on_bad_status_witness :
  observed (relay_handler RelayRandomFact)
    (with_net (upstream_of 503 (JsonParsed sample_posts)) sample_world) =
  observed (relay_handler RelayRandomFact)
    (with_net (upstream_of 503
                 (JsonRejected {| err_name := "SyntaxError";
                                  err_message := "Unexpected token <" |}))
              sample_world).
Proof.
  apply (relay_skips_body_on_bad_status RelayRandomFact sample_world 503).
  lia.
Defined.

(** X6: a relay consults its own upstream only: what the other URLs would
    answer changes neither its response nor its output. *)
Theorem relay_reads_own_url_only k w n1 n2 :
  n1 (relay_url k) = n2 (relay_url k) ->
  observed (relay_handler k) (with_net n1 w) =
  observed (relay_handler k) (with_net n2 w).
Proof.
  intros Hsame. rewrite relay_is_handler, !observed_handler.
  destruct k; cbn in *; unfold relay_error_lines; cbn; rewrite Hsame;
    reflexivity.
Qed.

Lemma relay_reads_own_url_only_witness :
  let down := fun _ : string =>
    Rejected {| err_name := "TypeError"; err_message := "fetch failed" |} in
  let posts_only := fun url =>
    if decide (url = posts_url)
    then Resolved {| status := 200; json_result := JsonParsed sample_posts;
                     stack_room := true |}
    else down url in
  observed (relay_handler RelayRandomFact) (with_net posts_only sample_world) =
  observed (relay_handler RelayRandomFact) (with_net down sample_world).
Proof.
  cbv zeta.
  apply (relay_reads_own_url_only RelayRandomFact sample_world).
  reflexivity.
Defined.

Lemma relay_error_log_witness :
  let w := with_net (upstream_of 404 (JsonParsed sample_posts)) sample_world in
  stderr (world_after (relay_handler RelayPosts) w) =
    ["Error fetching from JSONPlaceholder: " +:+
     "External API responded with status: 404" +:+ nl].
Proof.
  cbv zeta.
  destruct (relay_error_log RelayPosts
              (with_net (upstream_of 404 (JsonParsed sample_posts))
                        sample_world)) as (Hlog & _ & _ & Hstatus & _).
  rewrite Hlog, (Hstatus _ eq_refl) by (cbn; lia). reflexivity.
Defined.

(** ** The process state across events *)

Lemma step_world s ev :
  alive s = true ->
  alive (step s ev) = true /\
  sworld (step s ev) = world_step (sworld s) ev.
Proof.
  intros Halive. destruct ev as [r |].
  - rewrite (step_request s r Halive). cbn. split; [reflexivity |].
    apply handler_world.
  - unfold step. rewrite Halive. cbn. auto.
Qed.

Lemma run_world evs : forall s,
  alive s = true -> sworld (run s evs) = world_run (sworld s) evs.
Proof.
  induction evs as [| ev evs IH]; intros s Halive; [reflexivity |].
  rewrite run_cons. destruct (step_world s ev Halive) as [Ha Hw].
  rewrite (IH _ Ha), Hw. reflexivity.
Qed.

Lemma world_run_cons w ev evs :
  world_run w (ev :: evs) = world_run (world_step w ev) evs.
Proof. reflexivity. Qed.

Lemma world_step_frame w ev :
  env (world_step w ev) = env w /\ net (world_step w ev) = net w /\
  clock (world_step w ev) = clock w /\
  localeTime (world_step w ev) = localeTime w.
Proof. destruct ev as [r |]; cbn; auto. Qed.

Lemma world_run_frame evs : forall w,
  env (world_run w evs) = env w /\ net (world_run w evs) = net w /\
  clock (world_run w evs) = clock w /\
  localeTime (world_run w evs) = localeTime w.
Proof.
  induction evs as [| ev evs IH]; intros w; [auto |].
  rewrite world_run_cons.
  destruct (IH (world_step w ev)) as (He & Hn & Hc & Hl).
  destruct (world_step_frame w ev) as (He' & Hn' & Hc' & Hl').
  rewrite He, Hn, Hc, Hl. auto.
Qed.

Lemma world_step_lengths w ev :
  length (stdout (world_step w ev)) =
    (length (stdout w) + stdout_lines [ev])%nat /\
  length (stderr (world_step w ev)) =
    (length (stderr w) + stderr_lines (net w) [ev])%nat.
Proof.
  destruct ev as [r |]; cbn; rewrite ?length_app; cbn.
  - split.
    + unfold log_lines. destruct r; cbn; lia.
    + unfold error_lines, relay_error_lines.
      destruct r; cbn; try lia.
      * destruct (caught_message (net w posts_url)); cbn; lia.
      * destruct (caught_message (net w fact_url)); cbn; lia.
  - lia.
Qed.

Lemma stdout_lines_cons ev evs :
  stdout_lines (ev :: evs) = (stdout_lines [ev] + stdout_lines evs)%nat.
Proof. unfold stdout_lines. cbn. lia. Qed.

Lemma stderr_lines_cons n ev evs :
  stderr_lines n (ev :: evs) =
    (stderr_lines n [ev] + stderr_lines n evs)%nat.
Proof. unfold stderr_lines. cbn. lia. Qed.

Lemma world_run_lengths evs : forall w,
  length (stdout (world_run w evs)) =
    (length (stdout w) + stdout_lines evs)%nat /\
  length (stderr (world_run w evs)) =
    (length (stderr w) + stderr_lines (net w) evs)%nat.
Proof.
  induction evs as [| ev evs IH]; intros w.
  - cbn. unfold stdout_lines, stderr_lines. cbn. lia.
  - rewrite world_run_cons, stdout_lines_cons, stderr_lines_cons.
    destruct (IH (world_step w ev)) as [Hout Herr].
    destruct (world_step_lengths w ev) as [Hout' Herr'].
    destruct (world_step_frame w ev) as (_ & Hnet & _).
    rewrite Hnet in Herr. lia.
Qed.

Lemma boot_frame w :
  env (sworld (boot w)) = env w /\ net (sworld (boot w)) = net w /\
  clock (sworld (boot w)) = clock w /\
  localeTime (sworld (boot w)) = localeTime w /\
  stdout (sworld (boot w)) = stdout w /\ stderr (sworld (boot w)) = stderr w.
Proof. cbn. auto 10. Qed.

(** X7: whatever requests and ticks arrive, the server leaves the
    environment, the upstream behaviour, the clock and the locale as they
    were: only the streams, the count of clock readings and the spinner
    index move. *)
Theorem server_keeps_its_surroundings w evs :
  let w' := sworld (run (boot w) evs) in
  env w' = env w /\ net w' = net w /\ clock w' = clock w /\
  localeTime w' = localeTime w.
Proof.
  cbv zeta. rewrite (run_world evs (boot w) (boot_alive w)).
  destruct (world_run_frame evs (sworld (boot w))) as (He & Hn & Hc & Hl).
  rewrite He, Hn, Hc, Hl. cbn. auto.
Qed.

(** X8: over any sequence of requests and ticks the server writes to the
    output stream one line per tick and one per request other than the
    root's, and to the error stream one line per relay request that is
    answered 500, whether its upstream call failed or its parsed body was
    nested too deep to be serialised, and no other. *)
Theorem server_stream_accounting w evs :
  let w' := sworld (run (boot w) evs) in
  length (stdout w') = (length (stdout w) + stdout_lines evs)%nat /\
  length (stderr w') = (length (stderr w) + stderr_lines (net w) evs)%nat.
Proof.
  cbv zeta. rewrite (run_world evs (boot w) (boot_alive w)).
  destruct (world_run_lengths evs (sworld (boot w))) as [Hout Herr].
  rewrite Hout, Herr. cbn. auto.
Qed.

Lemma append_assoc a b c : (a +:+ b) +:+ c = a +:+ b +:+ c.
Proof.
  induction a as [| x a IH]; [reflexivity |].
  rewrite !append_cons, IH. reflexivity.
Qed.

Lemma append_nil_r s : s +:+ "" = s.
Proof.
  induction s as [| c s IH]; [reflexivity |].
  rewrite append_cons, IH. reflexivity.
Qed.

Lemma log_lines_framed r w : Forall framed (log_lines r w).
Proof.
  unfold log_lines. destruct (log_text r) as [text |]; [| constructor].
  constructor; [| constructor].
  exists ("[" +:+
          localeTime w (clock w (reads_of r - 1 + clock_reads w)%nat) +:+
          "] " +:+ text).
  rewrite !append_assoc. reflexivity.
Qed.

Lemma spinner_lookup i :
  (i < 4)%nat ->
  exists c, spinnerChars !! i = Some c /\ c ∈ spinnerChars.
Proof.
  intros Hi. destruct i as [| [| [| [| i]]]]; [| | | | lia];
    eexists; (split; [reflexivity | apply list_elem_of_In; cbn; tauto]).
Qed.

Lemma tick_line_spinner w :
  (spinnerIndex w < 4)%nat -> spinner_line (tick_line w).
Proof.
  intros Hi. destruct (spinner_lookup _ Hi) as (c & Hc & Hin).
  exists (localeTime w (clock w (clock_reads w))), c.
  split; [exact Hin |]. unfold tick_line. rewrite Hc. reflexivity.
Qed.

Lemma world_step_lines w ev :
  (spinnerIndex w < 4)%nat ->
  exists lines,
    stdout (world_step w ev) = stdout w ++ lines /\
    Forall (fun line => framed line \/ spinner_line line) lines /\
    (spinnerIndex (world_step w ev) < 4)%nat.
Proof.
  intros Hi. destruct ev as [r |].
  - exists (log_lines r w). split; [reflexivity |]. split; [| exact Hi].
    eapply Forall_impl; [apply log_lines_framed |]. cbn. auto.
  - exists [tick_line w]. split; [reflexivity |]. split.
    + constructor; [| constructor]. right. apply tick_line_spinner, Hi.
    + cbn [world_step tick_world spinnerIndex].
      apply Nat.mod_upper_bound. discriminate.
Qed.

Lemma world_run_lines evs : forall w,
  (spinnerIndex w < 4)%nat ->
  exists lines,
    stdout (world_run w evs) = stdout w ++ lines /\
    Forall (fun line => framed line \/ spinner_line line) lines.
Proof.
  induction evs as [| ev evs IH]; intros w Hi.
  - exists []. split; [cbn; rewrite app_nil_r; reflexivity | constructor].
  - rewrite world_run_cons.
    destruct (world_step_lines w ev Hi) as (first & Hfirst & Hforms & Hi').
    destruct (IH _ Hi') as (rest & Hrest & Hforms').
    exists (first ++ rest). split.
    + rewrite Hrest, Hfirst, app_assoc. reflexivity.
    + apply Forall_app. auto.
Qed.

(** X9: over any sequence of requests and ticks (the start-up banner is
    not among them) the server only appends to its output stream, and
    every line a request or a tick appends is either a handler's line,
    which begins and ends with a line feed, or a spinner line, which shows
    one of the four spinner characters (never [undefined]) and ends with a
    carriage return. *)
Theorem server_output_lines w evs :
  exists lines,
    stdout (sworld (run (boot w) evs)) = stdout w ++ lines /\
    Forall (fun line => framed line \/ spinner_line line) lines.
Proof.
  rewrite (run_world evs (boot w) (boot_alive w)).
  apply (world_run_lines evs (sworld (boot w))). cbn. lia.
Qed.

(** X10: the spinner rotates with the ticks alone: after any events of
    which [n] were ticks, the next tick prints the character at position
    [n mod 4] of the spinner, whatever requests came in between. *)
Theorem spinner_rotation w evs :
  let s := run (boot w) evs in
  exists c,
    spinnerChars !! (ticks_of evs mod 4)%nat = Some c /\
    stdout (sworld (step s Tick)) =
      stdout (sworld s) ++
      ["[" +:+ localeTime w (clock w (clock_reads (sworld s))) +:+
       "] Server is running... " +:+ c +:+ cr].
Proof.
  cbv zeta.
  destruct (run_invariant evs (boot w) (boot_alive w)) as (Ha & _ & Hi & Hb).
  assert (Hlt : (spinnerIndex (sworld (run (boot w) evs)) < 4)%nat)
    by (apply Hb; cbn; lia).
  assert (Hidx : spinnerIndex (sworld (run (boot w) evs)) =
                 (ticks_of evs mod 4)%nat).
  { rewrite <- (Nat.mod_small _ 4 Hlt), Hi. reflexivity. }
  destruct (spinner_lookup _ Hlt) as (c & Hc & _).
  exists c. split; [rewrite <- Hidx; exact Hc |].
  destruct (step_world _ Tick Ha) as [_ Hw]. rewrite Hw.
  cbn [world_step tick_world stdout]. unfold tick_line. rewrite Hc.
  rewrite (run_world evs (boot w) (boot_alive w)).
  destruct (world_run_frame evs (sworld (boot w))) as (_ & _ & Hclock & Hloc).
  rewrite Hclock, Hloc. reflexivity.
Qed.

(** ** Start-up *)

(** X11: the start-up callback prints eleven lines and nothing on the
    error stream; its endpoint list names exactly the paths the handlers
    are registered on, in the order of registration and under the port the
    server listens on, and no two handlers share a path.  The callback of
    the plain [index.js] prints its one line. *)
Theorem banner_lists_the_routes w :
  observed listen_callback w =
    (None,
     stdout w ++
       [nl +:+ nl; banner_rule +:+ nl;
        "Server running at http://localhost:3000/" +:+ nl;
        banner_rule +:+ nl; "Test Endpoints:" +:+ nl] ++
       map (fun entry => "- http://localhost:3000" +:+ entry.1 +:+ nl) routes ++
       [banner_rule +:+ nl],
     stderr w) /\
  NoDup (map fst routes) /\
  observed IndexJs.listen_callback w =
    (None, stdout w ++ ["Server running at http://localhost:3000/" +:+ nl],
     stderr w).
Proof.
  split; [| split].
  - unfold observed. cbn. rewrite <- !app_assoc. reflexivity.
  - apply NoDup_ListNoDup. repeat constructor; cbn; intuition discriminate.
  - reflexivity.
Qed.

(** ** The [sed] commands *)

Lemma shortest_all_tails s :
  Sed.shortest (flat_map (fun t => [t]) (Sed.star_tails Sed.AnyChar s))
    = Some "".
Proof.
  induction s as [| c s IH]; [reflexivity |].
  cbn [Sed.star_tails Sed.atom_matches flat_map app].
  unfold Sed.shortest in *. cbn [foldr]. rewrite IH. reflexivity.
Qed.

(** The items of [^text.*] match exactly the lines that start with the
    text, and then to the end of the line. *)
Lemma shortest_literal_then_rest text : forall line,
  Sed.shortest (Sed.match_tails (Sed.items (Sed.literal_then_rest text)) line)
    = if String.prefix text line then Some "" else None.
Proof.
  unfold Sed.literal_then_rest. cbn [Sed.items].
  induction text as [| c text IH]; intros line.
  - cbn [list_ascii_of_string map app Sed.match_tails Sed.starred
         Sed.item_atom].
    rewrite shortest_all_tails. destruct line; reflexivity.
  - destruct line as [| c' line]; [reflexivity |].
    cbn [list_ascii_of_string map app Sed.match_tails Sed.starred
         Sed.item_atom Sed.atom_matches String.prefix].
    destruct (ascii_dec c c') as [-> | Hne].
    + rewrite bool_decide_eq_true_2 by reflexivity. apply IH.
    + rewrite bool_decide_eq_false_2 by congruence. reflexivity.
Qed.

Lemma commands_parse cmd :
  cmd ∈ Sed.commands ->
  Sed.parse_regex cmd.1 = Some (Sed.literal_then_rest (Sed.trigger_of cmd.1)) /\
  Sed.literal_replacement cmd.2 = true /\
  String.prefix "#?" (Sed.trigger_of cmd.1) = true /\
  forall cmd', cmd' ∈ Sed.commands ->
               String.prefix (Sed.trigger_of cmd'.1) cmd.2 = false.
Proof.
  unfold Sed.commands. rewrite !elem_of_cons, elem_of_nil.
  intros [-> | [-> | [-> | [-> | []]]]];
    (split; [vm_compute; reflexivity |]);
    (split; [vm_compute; reflexivity |]);
    (split; [vm_compute; reflexivity |]);
    intros cmd'; rewrite !elem_of_cons, elem_of_nil;
    intros [-> | [-> | [-> | [-> | []]]]]; vm_compute; reflexivity.
Qed.

Lemma substitute_command cmd line :
  cmd ∈ Sed.commands ->
  Sed.substitute cmd.1 cmd.2 line =
    Some (Sed.rewrite_line (Sed.trigger_of cmd.1) cmd.2 line).
Proof.
  intros Hin. destruct (commands_parse cmd Hin) as (Hparse & Hrepl & _).
  unfold Sed.substitute, Sed.rewrite_line, Sed.find_match.
  rewrite Hparse. cbn [mbind option_bind]. rewrite Hrepl.
  replace (Sed.anchored (Sed.literal_then_rest (Sed.trigger_of cmd.1)))
    with true by reflexivity.
  rewrite shortest_literal_then_rest.
  destruct (String.prefix (Sed.trigger_of cmd.1) line);
    cbn [fmap option_fmap option_map].
  - rewrite append_nil_l, append_nil_r. reflexivity.
  - reflexivity.
Qed.

(** X12: each of the four [sed] commands rewrites exactly the lines that
    begin with [#?], the keyword and a space, the question mark being
    matched as it stands, and replaces such a line whole by its
    replacement; every other line is left as it is. *)
Theorem sed_command_fires_on_literal_prefix cmd line :
  cmd ∈ Sed.commands ->
  Sed.substitute cmd.1 cmd.2 line =
    Some (if String.prefix (Sed.trigger_of cmd.1) line then cmd.2 else line) /\
  String.prefix "#?" (Sed.trigger_of cmd.1) = true /\
  cmd.1 = "^" +:+ Sed.trigger_of cmd.1 +:+ ".*".
Proof.
  intros Hin. split; [apply (substitute_command cmd line Hin) |].
  split; [apply (commands_parse cmd Hin) |].
  revert Hin. unfold Sed.commands. rewrite !elem_of_cons, elem_of_nil.
  intros [-> | [-> | [-> | [-> | []]]]]; reflexivity.
Qed.

Lemma sed_command_fires_on_literal_prefix_witness :
  Sed.substitute "^#?PasswordAuthentication .*" "PasswordAuthentication no"
                 "#PasswordAuthentication yes" =
    Some "#PasswordAuthentication yes" /\
  Sed.trigger_of "^#?PasswordAuthentication .*" = "#?PasswordAuthentication ".
Proof.
  destruct (sed_command_fires_on_literal_prefix
              ("^#?PasswordAuthentication .*", "PasswordAuthentication no")
              "#PasswordAuthentication yes") as (Hsub & _ & _).
  - apply list_elem_of_In. cbn. tauto.
  - split; [exact Hsub | reflexivity].
Defined.

Lemma mapM_total {A B} (f : A -> option B) (g : A -> B) l :
  (forall x, f x = Some (g x)) -> mapM f l = Some (map g l).
Proof.
  intros H. induction l as [| x l IH]; [reflexivity |].
  cbn. rewrite H, IH. reflexivity.
Qed.

Lemma sed_i_command cmd file :
  cmd ∈ Sed.commands ->
  Sed.sed_i cmd.1 cmd.2 file =
    Some (map (Sed.rewrite_line (Sed.trigger_of cmd.1) cmd.2) file).
Proof.
  intros Hin. apply mapM_total. intros line.
  apply substitute_command, Hin.
Qed.

Lemma chain_is_linewise cmds : forall file,
  (forall cmd, cmd ∈ cmds -> cmd ∈ Sed.commands) ->
  foldl (fun file cmd => file ≫= Sed.sed_i cmd.1 cmd.2) (Some file) cmds =
    Some (map (fun line =>
                 foldl (fun l cmd =>
                          Sed.rewrite_line (Sed.trigger_of cmd.1) cmd.2 l)
                       line cmds) file).
Proof.
  induction cmds as [| cmd cmds IH]; intros file Hsub.
  - cbn. rewrite map_id. reflexivity.
  - cbn [foldl mbind option_bind].
    rewrite sed_i_command by (apply Hsub; left).
    rewrite IH by (intros cmd' Hin; apply Hsub; right; exact Hin).
    rewrite map_map. reflexivity.
Qed.

Lemma harden_is_linewise file :
  Sed.harden file = Some (map Sed.harden_line file).
Proof. apply chain_is_linewise. auto. Qed.

Lemma prefix_trans a : forall t l,
  String.prefix a t = true -> String.prefix t l = true ->
  String.prefix a l = true.
Proof.
  induction a as [| c a IH]; intros t l Hat Htl.
  - destruct l; reflexivity.
  - destruct t as [| c1 t]; [discriminate |].
    destruct l as [| c2 l]; [discriminate |].
    cbn in *.
    destruct (ascii_dec c c1) as [-> |]; [| discriminate].
    destruct (ascii_dec c1 c2) as [-> |]; [| discriminate].
    apply (IH t l Hat Htl).
Qed.

Lemma rewrite_line_keeps cmd line :
  cmd ∈ Sed.commands ->
  String.prefix "#?" line = false ->
  Sed.rewrite_line (Sed.trigger_of cmd.1) cmd.2 line = line.
Proof.
  intros Hin Hline. unfold Sed.rewrite_line.
  destruct (String.prefix (Sed.trigger_of cmd.1) line) eqn:Hfire;
    [| reflexivity].
  destruct (commands_parse cmd Hin) as (_ & _ & Htrigger & _).
  rewrite (prefix_trans _ _ _ Htrigger Hfire) in Hline. discriminate.
Qed.

Lemma harden_line_keeps line :
  String.prefix "#?" line = false -> Sed.harden_line line = line.
Proof.
  intros Hline. unfold Sed.harden_line.
  assert (H : forall cmds, (forall cmd, cmd ∈ cmds -> cmd ∈ Sed.commands) ->
            foldl (fun l cmd =>
                     Sed.rewrite_line (Sed.trigger_of cmd.1) cmd.2 l)
                  line cmds = line).
  { induction cmds as [| cmd cmds IH]; intros Hsub; [reflexivity |].
    cbn [foldl]. rewrite rewrite_line_keeps by (auto; apply Hsub; left).
    apply IH. intros cmd' Hin. apply Hsub. right. exact Hin. }
  apply H. auto.
Qed.

(** X13: the four commands together leave alone every line that does not
    begin with the two characters [#?]; a configuration without such a
    line, whether its settings are commented out with [#] or not, comes out
    as it went in. *)
Theorem harden_leaves_plain_config sshd_config :
  Forall (fun line => String.prefix "#?" line = false) sshd_config ->
  Sed.harden sshd_config = Some sshd_config.
Proof.
  intros Hplain. rewrite harden_is_linewise. f_equal.
  induction Hplain as [| line file Hline _ IH]; [reflexivity |].
  cbn [map]. rewrite harden_line_keeps by exact Hline. rewrite IH.
  reflexivity.
Qed.

Lemma harden_leaves_plain_config_witness :
  let sshd_config :=
    ["#PermitRootLogin prohibit-password"; "#PubkeyAuthentication yes";
     "PasswordAuthentication yes"; "#ChallengeResponseAuthentication yes";
     ""; "UsePAM yes"] in
  Sed.harden sshd_config = Some sshd_config.
Proof.
  cbv zeta. apply harden_leaves_plain_config.
  repeat constructor.
Defined.

Ltac fires cmd :=
  right; exists cmd;
  split; [apply list_elem_of_In; cbn; tauto | vm_compute; reflexivity].

Lemma harden_line_cases line :
  Sed.harden_line line = line \/
  exists cmd, cmd ∈ Sed.commands /\ Sed.harden_line line = cmd.2.
Proof.
  unfold Sed.harden_line, Sed.commands, Sed.rewrite_line.
  cbn [foldl fst snd].
  destruct (String.prefix (Sed.trigger_of "^#?PermitRootLogin .*") line);
    [fires ("^#?PermitRootLogin .*", "PermitRootLogin prohibit-password") |].
  destruct (String.prefix (Sed.trigger_of "^#?PubkeyAuthentication .*") line);
    [fires ("^#?PubkeyAuthentication .*", "PubkeyAuthentication yes") |].
  destruct
    (String.prefix (Sed.trigger_of "^#?PasswordAuthentication .*") line);
    [fires ("^#?PasswordAuthentication .*", "PasswordAuthentication no") |].
  destruct
    (String.prefix (Sed.trigger_of "^#?ChallengeResponseAuthentication .*")
                   line);
    [fires ("^#?ChallengeResponseAuthentication .*",
            "ChallengeResponseAuthentication no") |].
  left. reflexivity.
Qed.

Lemma harden_line_replacement cmd :
  cmd ∈ Sed.commands -> Sed.harden_line cmd.2 = cmd.2.
Proof.
  unfold Sed.commands. rewrite !elem_of_cons, elem_of_nil.
  intros [-> | [-> | [-> | [-> | []]]]]; vm_compute; reflexivity.
Qed.

(** X14: the four commands work line by line and keep the number of lines,
    and running them a second time changes nothing more. *)
Theorem harden_idempotent sshd_config :
  exists hardened,
    Sed.harden sshd_config = Some hardened /\
    length hardened = length sshd_config /\
    Sed.harden hardened = Some hardened.
Proof.
  exists (map Sed.harden_line sshd_config).
  split; [apply harden_is_linewise |]. split; [apply length_map |].
  rewrite harden_is_linewise, map_map. f_equal.
  apply map_ext. intros line.
  destruct (harden_line_cases line) as [Hkept | (cmd & Hin & ->)].
  - rewrite Hkept. exact Hkept.
  - apply harden_line_replacement, Hin.
Qed.

(** ** The handlers, further *)

(** X15: the [/health] handler reads the clock twice: the first reading is
    the [timestamp] of the body, the second stamps the one line it logs,
    and it writes nothing to the error stream.  Of the other handlers the
    root's never reads the clock and each of the rest reads it once. *)
Theorem health_reads_clock_twice w :
  let t1 := clock w (clock_reads w) in
  let t2 := clock w (S (clock_reads w)) in
  observed health_handler w =
    (Some {| resp_status := 200; resp_body := health_body (toISOString t1) |},
     stdout w ++
       [nl +:+ "[" +:+ localeTime w t2 +:+ "] Health check successful." +:+ nl],
     stderr w) /\
  forall r,
    clock_reads (world_after (handler r) w) =
      (match r with
       | Root => 0
       | Health => 2
       | Env | Posts | RandomFact => 1
       end + clock_reads w)%nat.
Proof.
  split; [reflexivity |].
  intros r. rewrite handler_world. destruct r; reflexivity.
Qed.

(** X16: either relay, when its upstream answers with a status in 200-299
    and a body that parses to a value the stack has room to serialise,
    responds 200 with the serialisation of that value, which is the value
    unchanged when it holds no non-finite number and no negative zero, and
    logs no error. *)
Theorem relay_passes_body_through k w v :
  serialisable_success (net w (relay_url k)) v ->
  observed (relay_handler k) w =
    (Some {| resp_status := 200; resp_body := BodyJson (serialised v) |},
     stdout w ++ log_lines (relay_route k) w,
     stderr w) /\
  (plain v = true -> serialised v = v).
Proof.
  intros Hok. split; [| apply serialised_plain].
  rewrite relay_is_handler, observed_handler.
  assert (Hnone : caught_message (net w (relay_url k)) = None)
    by (apply caught_message_none; exists v; exact Hok).
  pose proof (relay_response_success _ (relay_failure k) _ Hok) as Hresp.
  destruct k; cbn in *; unfold relay_error_lines; cbn;
    rewrite Hnone, Hresp, app_nil_r; reflexivity.
Qed.

Lemma relay_passes_body_through_witness :
  let w := with_net (upstream_of 201 (JsonParsed (JString "a fact")))
                    sample_world in
  observed (relay_handler RelayRandomFact) w =
    (Some {| resp_status := 200;
             resp_body := BodyJson (JString "a fact") |},
     stdout w ++ log_lines RandomFact w,
     stderr w).
Proof.
  cbv zeta.
  apply (relay_passes_body_through RelayRandomFact
           (with_net (upstream_of 201 (JsonParsed (JString "a fact")))
                     sample_world) (JString "a fact")).
  eexists. split; [reflexivity |]. split; [cbn; lia |]. split; reflexivity.
Defined.

(** X17: with a body that parses to a value the stack has room to
    serialise, a relay answers 200 exactly for the upstream statuses from
    200 to 299, bounds included; for any other status, such as 199, 300 or
    304, it answers 500. *)
Theorem relay_status_bounds k w r v :
  net w (relay_url k) = Resolved r ->
  json_result r = JsonParsed v ->
  stack_room r = true ->
  exists resp,
    responds (relay_handler k) w resp /\
    (resp_status resp = 200 \/ resp_status resp = 500) /\
    (resp_status resp = 200 <-> 200 <= status r <= 299).
Proof.
  intros Hnet Hbody Hroom. eexists. split; [apply relay_responds |].
  rewrite Hnet. unfold relay_response. rewrite Hbody, Hroom.
  destruct (ok r) eqn:Hok; cbn.
  - apply ok_true in Hok. split; [left; reflexivity | tauto].
  - apply ok_false in Hok. split; [right; reflexivity |].
    split; [discriminate | tauto].
Qed.

Lemma relay_status_bounds_witness :
  exists resp,
    responds (relay_handler RelayPosts)
      (with_net (upstream_of 304 (JsonParsed sample_posts)) sample_world)
      resp /\
    (resp_status resp = 200 \/ resp_status resp = 500) /\
    (resp_status resp = 200 <-> 200 <= 304 <= 299).
Proof.
  apply (relay_status_bounds RelayPosts
           (with_net (upstream_of 304 (JsonParsed sample_posts)) sample_world)
           {| status := 304; json_result := JsonParsed sample_posts;
              stack_room := true |}
           sample_posts); reflexivity.
Defined.

(** X18: the health check consults neither the upstream services nor the
    environment: it gives the same response whatever they are, and so
    reports the service healthy while its upstreams are down. *)
Theorem health_ignores_upstream_and_environment w e n :
  response_of health_handler (with_env e (with_net n w)) =
  response_of health_handler w /\
  exists timestamp,
    response_of health_handler (with_env e (with_net n w)) =
      Some {| resp_status := 200; resp_body := health_body timestamp |}.
Proof. split; [reflexivity | eexists; reflexivity]. Qed.
